(** * The CSS selector builder of core-js-101

    A shallow embedding of the object [cssSelectorBuilder] of the objects
    tasks, in the revision whose appending methods share [buildNewObj] and
    [processElement]: its data properties, its helper methods
    ([addPartToOrder], [checkElemOrder], [buildNewObj], [processElement]),
    the six appending methods, [combine] and [stringify].

    JavaScript objects live in a heap of locations, so that mutation in
    place and aliasing of a selector are visible; a method is a computation
    in a state-and-exception monad in which the heap survives a [throw].
    A string is a sequence of characters; the builder only concatenates
    strings, cuts off a first and a last character, splits at ['='] and
    removes line feeds. *)

From Stdlib Require Import ZArith QArith Qabs Lqa DecimalString.
From Stdlib Require Import Ascii String List Sorted Lia Bool.
From stdpp Require Import base list strings.

Local Open Scope Z_scope.

(** String concatenation computes under [simpl] in this file. *)
#[local] Arguments String.append !_ _ / : simpl nomatch.

(** ** JavaScript primitives used by the builder *)

Module Js.

(** [undefined] is [None]; a defined string is [Some s]. *)
Definition value := option string.

(** [`${v}`] : string conversion inside a template literal. *)
Definition toStr (v : value) : string :=
  match v with
  | Some s => s
  | None => "undefined"
  end.

(** Truthiness of a string: every string but [''] is truthy. *)
Definition truthy (s : string) : bool :=
  match s with
  | EmptyString => false
  | String _ _ => true
  end.

(** Relative index resolution shared by [slice] on strings and arrays. *)
Definition relIndex (len i : Z) : Z :=
  if i <? 0 then Z.max (len + i) 0 else Z.min i len.

(** [String.prototype.slice(start, end)]. *)
Definition sliceStr (s : string) (start end_ : Z) : string :=
  let len := Z.of_nat (String.length s) in
  let from := relIndex len start in
  let to := relIndex len end_ in
  String.substring (Z.to_nat from) (Z.to_nat (to - from)) s.

(** [Array.prototype.slice(start, end)]. *)
Definition sliceArr {A} (l : list A) (start end_ : Z) : list A :=
  let len := Z.of_nat (length l) in
  let from := relIndex len start in
  let to := relIndex len end_ in
  take (Z.to_nat (to - from)) (drop (Z.to_nat from) l).

(** [Array.prototype.at(i)]. *)
Definition at_ {A} (l : list A) (i : Z) : option A :=
  let len := Z.of_nat (length l) in
  let k := if i <? 0 then len + i else i in
  if (k <? 0) || (len <=? k) then None else l !! Z.to_nat k.

(** [Array.prototype.indexOf(x)], [-1] when [x] does not occur; the
    argument may be [undefined], which no array of the builder holds. *)
Fixpoint indexOfFrom {A} `{EqDecision A} (l : list A) (x : A) (i : Z) : Z :=
  match l with
  | [] => -1
  | y :: l' => if decide (y = x) then i else indexOfFrom l' x (i + 1)
  end.

Definition indexOf {A} `{EqDecision A} (l : list A) (x : option A) : Z :=
  match x with
  | Some x => indexOfFrom l x 0
  | None => -1
  end.

(** [Array.prototype.includes(x)]. *)
Definition includes {A} `{EqDecision A} (l : list A) (x : A) : bool :=
  existsb (fun y => bool_decide (y = x)) l.

(** [Array.prototype.every(p)]. *)
Definition every {A} (p : A -> bool) (l : list A) : bool := forallb p l.

(** [s.split(sep)] for a one-character separator: never empty. *)
Fixpoint split (sep : ascii) (s : string) : list string :=
  match s with
  | EmptyString => [EmptyString]
  | String c s' =>
      if Ascii.eqb c sep then EmptyString :: split sep s'
      else match split sep s' with
           | [] => [String c EmptyString]
           | w :: ws => String c w :: ws
           end
  end.

(** [arr.join(sep)]. *)
Fixpoint join (sep : string) (l : list string) : string :=
  match l with
  | [] => ""
  | [s] => s
  | s :: l' => s +:+ sep +:+ join sep l'
  end.

(** [s.replaceAll(c, r)] for a one-character pattern [c] and a replacement
    [r] without ['$']; the builder's only call has [r = '']. *)
Fixpoint replaceAll (c : ascii) (r : string) (s : string) : string :=
  match s with
  | EmptyString => EmptyString
  | String d s' =>
      if Ascii.eqb d c then r +:+ replaceAll c r s'
      else String d (replaceAll c r s')
  end.

(** The line feed ['\n'] and the ['='] of an attribute descriptor. *)
Definition LF : ascii := "010"%char.
Definition EQ : ascii := "="%char.

End Js.

(** ** Objects, heap and the method monad *)

(** The names pushed on [partsOrder] and listed in [correctOrder]:
    ['element'], ['id'], ['class'], ['attr'], ['pseudoClass'],
    ['pseudoElement'].  The appending methods pass no other name. *)
Inductive part :=
  | PElement | PId | PClass | PAttr | PPseudoClass | PPseudoElement.

#[global] Instance part_eq_dec : EqDecision part.
Proof. solve_decision. Defined.

Abbreviation loc := nat.

(** The own data properties of a selector object.  [buildNewObj] gives the
    new object all seven of them, so none is ever read through the
    prototype link [proto]; the prototype only supplies the methods and
    the constants [propLib], [correctOrder] and the two messages.  The
    array [partsOrder] of an object is referenced by that object alone (the
    literal's [[]] and the new [[]] of each [buildNewObj]), so it is kept
    in the record and [push] is an update of the record. *)
Record selector := mkSelector {
  proto : option loc;
  elementStr : string;
  idStr : string;
  classesStr : string;
  attrStr : string;
  pseudoClassesStr : string;
  pseudoElementStr : string;
  partsOrder : list part
}.

(** An object is a selector or the node returned by [combine], which owns
    the single property [combineStr]. *)
Inductive obj :=
  | Selector (s : selector)
  | Combined (combineStr : string).

Abbreviation heap := (list obj).

Inductive exn :=
  | Error (message : string)
  | TypeError.

Inductive outcome (A : Type) :=
  | Return (a : A)
  | Throw (e : exn).
Arguments Return {A} a.
Arguments Throw {A} e.

(** A method reads and writes the heap and returns or throws; what it wrote
    before throwing stays written. *)
Definition M (A : Type) : Type := heap -> outcome A * heap.

Definition ret {A} (a : A) : M A := fun h => (Return a, h).
Definition throw {A} (e : exn) : M A := fun h => (Throw e, h).
Definition bind {A B} (m : M A) (k : A -> M B) : M B :=
  fun h => match m h with
           | (Return a, h') => k a h'
           | (Throw e, h') => (Throw e, h')
           end.

Notation "'let*' x ':=' m 'in' k" := (bind m (fun x => k))
  (at level 10, x name, m at level 100, k at level 200).
Notation "'run' m 'then' k" := (bind m (fun _ => k))
  (at level 10, m at level 100, k at level 200).

(** Method lookup on the receiver: [this] must point to a selector, which is
    read; a node returned by [combine] has none of the builder's methods
    but [stringify], so calling one on it is a [TypeError]. *)
Definition getSel (this : loc) : M selector :=
  fun h => match h !! this with
           | Some (Selector s) => (Return s, h)
           | _ => (Throw TypeError, h)
           end.

Definition putSel (this : loc) (s : selector) : M unit :=
  fun h => (Return tt, <[this := Selector s]> h).

Definition alloc (o : obj) : M loc :=
  fun h => (Return (length h), h ++ [o]).

(** ** The builder *)

Module Builder.

Definition correctOrder : list part :=
  [PElement; PId; PClass; PAttr; PPseudoClass; PPseudoElement].

Definition occurExeption : string :=
  "Element, id and pseudo-element should not occur more then one time inside the selector".

Definition rangeExeption : string :=
  "Selector parts should be arranged in the following order: element, id, class, attribute, pseudo-class, pseudo-element".

(** [this[this.propLib[partName]] = v] *)
Definition setProp (partName : part) (v : string) (s : selector) : selector :=
  match partName with
  | PElement =>
      mkSelector (proto s) v (idStr s) (classesStr s) (attrStr s)
        (pseudoClassesStr s) (pseudoElementStr s) (partsOrder s)
  | PId =>
      mkSelector (proto s) (elementStr s) v (classesStr s) (attrStr s)
        (pseudoClassesStr s) (pseudoElementStr s) (partsOrder s)
  | PClass =>
      mkSelector (proto s) (elementStr s) (idStr s) v (attrStr s)
        (pseudoClassesStr s) (pseudoElementStr s) (partsOrder s)
  | PAttr =>
      mkSelector (proto s) (elementStr s) (idStr s) (classesStr s) v
        (pseudoClassesStr s) (pseudoElementStr s) (partsOrder s)
  | PPseudoClass =>
      mkSelector (proto s) (elementStr s) (idStr s) (classesStr s)
        (attrStr s) v (pseudoElementStr s) (partsOrder s)
  | PPseudoElement =>
      mkSelector (proto s) (elementStr s) (idStr s) (classesStr s)
        (attrStr s) (pseudoClassesStr s) v (partsOrder s)
  end.

Definition getProp (partName : part) (s : selector) : string :=
  match partName with
  | PElement => elementStr s
  | PId => idStr s
  | PClass => classesStr s
  | PAttr => attrStr s
  | PPseudoClass => pseudoClassesStr s
  | PPseudoElement => pseudoElementStr s
  end.

Definition setPartsOrder (l : list part) (s : selector) : selector :=
  mkSelector (proto s) (elementStr s) (idStr s) (classesStr s) (attrStr s)
    (pseudoClassesStr s) (pseudoElementStr s) l.

(** The object literal [cssSelectorBuilder] itself, at location [0]. *)
Definition template : selector :=
  mkSelector None "" "" "" "" "" "" [].

Definition cssSelectorBuilder : loc := 0%nat.

Definition initialHeap : heap := [Selector template].

(** [addPartToOrder(partName)]: the guard [this.partsOrder && partName]
    holds for every array and every one of the six names. *)
Definition addPartToOrder (this : loc) (partName : part) : M unit :=
  let* s := getSel this in
  if bool_decide (Js.at_ (partsOrder s) (-1) <> Some partName)
  then putSel this (setPartsOrder (partsOrder s ++ [partName]) s)
  else ret tt.

(** The condition of [checkElemOrder], on the value of
    [this.partsOrder]. *)
Definition everyInSample (partsOrder : list part) : bool :=
  let currentElement := Js.at_ partsOrder (-1) in
  let currentArr := Js.sliceArr partsOrder 0 (-1) in
  let sampleArr :=
    Js.sliceArr correctOrder 0 (Js.indexOf correctOrder currentElement) in
  Js.every (fun item => Js.includes sampleArr item) currentArr.

(** [checkElemOrder()] *)
Definition checkElemOrder (this : loc) : M unit :=
  let* s := getSel this in
  if negb (everyInSample (partsOrder s))
  then throw (Error rangeExeption)
  else ret tt.

(** [buildNewObj()]: [Object.create(this, {...})] with the six strings
    [''] and a new empty [partsOrder]. *)
Definition buildNewObj (this : loc) : M loc :=
  alloc (Selector (mkSelector (Some this) "" "" "" "" "" "" [])).

(** The [case 'attr'] block of [processElement]. *)
Definition attrValue (s : selector) (partValue : string) : string :=
  let currentAttr := Js.sliceStr (attrStr s) 1 (-1) in
  let parts := Js.split Js.EQ partValue in
  let key : Js.value := parts !! 0%nat in
  let value : Js.value := parts !! 1%nat in
  let attrObj := [(Js.toStr key, value)] in
  let attrArr :=
    map (fun '(keyAttr, valueAttr) => keyAttr +:+ "=" +:+ Js.toStr valueAttr)
      attrObj in
  if Js.truthy currentAttr
  then "[" +:+ currentAttr +:+ " " +:+ Js.join " " attrArr +:+ "]"
  else "[" +:+ Js.join " " attrArr +:+ "]".

(** The [switch] of [processElement]. *)
Definition currentValue (s : selector) (partValue : string) (partName : part)
  : string :=
  match partName with
  | PElement => partValue
  | PId => "#" +:+ partValue
  | PClass => classesStr s +:+ "." +:+ partValue
  | PAttr => attrValue s partValue
  | PPseudoClass => pseudoClassesStr s +:+ ":" +:+ partValue
  | PPseudoElement => pseudoElementStr s +:+ "::" +:+ partValue
  end.

(** [processElement(partValue, partName)]: the property is written and the
    name recorded before the order is checked. *)
Definition processElement (this : loc) (partValue : string) (partName : part)
  : M unit :=
  let* s := getSel this in
  run putSel this (setProp partName (currentValue s partValue partName) s) then
  run addPartToOrder this partName then
  checkElemOrder this.

(** The template literal of [stringify], before [replaceAll]. *)
Definition stringifyRaw (s : selector) : string :=
  String Js.LF (elementStr s +:+
  String Js.LF (idStr s +:+
  String Js.LF (classesStr s +:+
  String Js.LF (attrStr s +:+
  String Js.LF (pseudoClassesStr s +:+
  String Js.LF (pseudoElementStr s)))))).

Definition stringifySel (s : selector) : string :=
  Js.replaceAll Js.LF "" (stringifyRaw s).

(** [x.stringify()]: the builder's method on a selector, the node's own
    method on a node returned by [combine]. *)
Definition stringify (this : loc) : M string :=
  fun h => match h !! this with
           | Some (Selector s) => (Return (stringifySel s), h)
           | Some (Combined str) => (Return str, h)
           | None => (Throw TypeError, h)
           end.

(** [(this.stringify()) ? this : this.buildNewObj()] *)
Definition currentObjOf (this : loc) : M loc :=
  let* str := stringify this in
  if Js.truthy str then ret this else buildNewObj this.

(** The six appending methods.  Each starts with the lookup of the method
    on the receiver ([getSel]), which also reads the property the guards of
    [element], [id] and [pseudoElement] test. *)
Definition element (this : loc) (value : string) : M loc :=
  let* s := getSel this in
  if Js.truthy (elementStr s) then throw (Error occurExeption)
  else
    let* currentObj := currentObjOf this in
    run processElement currentObj value PElement then
    ret currentObj.

Definition id (this : loc) (value : string) : M loc :=
  let* s := getSel this in
  if Js.truthy (idStr s) then throw (Error occurExeption)
  else
    let* currentObj := currentObjOf this in
    run processElement currentObj value PId then
    ret currentObj.

Definition class (this : loc) (value : string) : M loc :=
  let* _ := getSel this in
  let* currentObj := currentObjOf this in
  run processElement currentObj value PClass then
  ret currentObj.

Definition attr (this : loc) (attribute : string) : M loc :=
  let* _ := getSel this in
  let* currentObj := currentObjOf this in
  run processElement currentObj attribute PAttr then
  ret currentObj.

Definition pseudoClass (this : loc) (value : string) : M loc :=
  let* _ := getSel this in
  let* currentObj := currentObjOf this in
  run processElement currentObj value PPseudoClass then
  ret currentObj.

Definition pseudoElement (this : loc) (value : string) : M loc :=
  let* s := getSel this in
  if Js.truthy (pseudoElementStr s) then throw (Error occurExeption)
  else
    let* currentObj := currentObjOf this in
    run processElement currentObj value PPseudoElement then
    ret currentObj.

(** [combine(selector1, combinator, selector2)]: the string is built when
    the node is, and the node's [stringify] returns it. *)
Definition combine (selector1 : loc) (combinator : string) (selector2 : loc)
  : M loc :=
  let* s1 := stringify selector1 in
  let* s2 := stringify selector2 in
  alloc (Combined (s1 +:+ " " +:+ combinator +:+ " " +:+ s2)).

End Builder.

(** ** The copy of [attr] without [processElement]

    A second copy of the builder (the source file without a name) has no
    [buildNewObj] and no [processElement]: each appending method creates
    the object and writes the property itself.  Its [addPartToOrder],
    [checkElemOrder] and [stringify] are those above.  Its [attr] differs
    from the one above in two places: the fragment is computed from the
    attributes of the receiver before the object to work on is chosen, and
    the entry is made by the assignment [attrObj[key] = value] on [{}]
    instead of the literal [{ [key]: value }].  That assignment goes
    through the setter of [Object.prototype.__proto__] when [key] is
    ['__proto__'], and the setter ignores a string and [undefined]: the
    object then has no entry. *)

Module Inline.

Definition attrString (s : selector) (attribute : string) : string :=
  let currentAttr := Js.sliceStr (attrStr s) 1 (-1) in
  let parts := Js.split Js.EQ attribute in
  let key : Js.value := parts !! 0%nat in
  let value : Js.value := parts !! 1%nat in
  let attrObj :=
    if bool_decide (Js.toStr key = "__proto__") then []
    else [(Js.toStr key, value)] in
  let attrArr :=
    map (fun '(keyAttr, valueAttr) => keyAttr +:+ "=" +:+ Js.toStr valueAttr)
      attrObj in
  if Js.truthy currentAttr
  then "[" +:+ currentAttr +:+ " " +:+ Js.join " " attrArr +:+ "]"
  else "[" +:+ Js.join " " attrArr +:+ "]".

(** [Object.create(this, { ...this.constructor })] followed by
    [newObj.partsOrder = []]: the six strings [''] of the descriptors in
    [constructor], and a new array. *)
Definition newObj (this : loc) : M loc :=
  alloc (Selector (mkSelector (Some this) "" "" "" "" "" "" [])).

Definition attr (this : loc) (attribute : string) : M loc :=
  let* s := getSel this in
  let attrStr := attrString s attribute in
  let* str := Builder.stringify this in
  let* currentObj := (if negb (Js.truthy str) then newObj this else ret this) in
  let* c := getSel currentObj in
  run putSel currentObj (Builder.setProp PAttr attrStr c) then
  run Builder.addPartToOrder currentObj PAttr then
  run Builder.checkElemOrder currentObj then
  ret currentObj.

End Inline.

(** ** Chains of appending calls *)

(** One appending call [this.<partName>(value)]. *)
Definition append (partName : part) (value : string) (this : loc) : M loc :=
  match partName with
  | PElement => Builder.element this value
  | PId => Builder.id this value
  | PClass => Builder.class this value
  | PAttr => Builder.attr this value
  | PPseudoClass => Builder.pseudoClass this value
  | PPseudoElement => Builder.pseudoElement this value
  end.

(** [this.k1(v1).k2(v2)...]: each call is made on what the previous one
    returned; the first [throw] ends the chain. *)
Fixpoint chain (calls : list (part * string)) (this : loc) : M loc :=
  match calls with
  | [] => ret this
  | (partName, value) :: calls' =>
      let* next := append partName value this in
      chain calls' next
  end.

(** ** Vocabulary of the properties *)

(** Rank of a part name in the canonical order, and the singular parts. *)
Definition rank (p : part) : nat :=
  match p with
  | PElement => 0
  | PId => 1
  | PClass => 2
  | PAttr => 3
  | PPseudoClass => 4
  | PPseudoElement => 5
  end.

Definition singular (p : part) : bool :=
  match p with
  | PElement | PId | PPseudoElement => true
  | _ => false
  end.

Definition DuplicateSingularPart : exn := Error Builder.occurExeption.
Definition OutOfOrderPart : exn := Error Builder.rangeExeption.

(** Concatenation of the six fragments in canonical order. *)
Definition fragments (s : selector) : string :=
  elementStr s +:+ idStr s +:+ classesStr s +:+ attrStr s +:+
  pseudoClassesStr s +:+ pseudoElementStr s.

(** A string holds the character [c]. *)
Fixpoint hasChar (c : ascii) (s : string) : bool :=
  match s with
  | EmptyString => false
  | String d s' => Ascii.eqb d c || hasChar c s'
  end.

(** What [addPartToOrder] leaves in [partsOrder]. *)
Definition pushPart (partsOrder : list part) (partName : part) : list part :=
  if bool_decide (last partsOrder <> Some partName)
  then partsOrder ++ [partName]
  else partsOrder.

(** The selector [processElement] leaves behind, whether or not the order
    check then throws: the property written, the name recorded. *)
Definition processed (partName : part) (value : string) (s : selector)
  : selector :=
  let s1 := Builder.setProp partName (Builder.currentValue s value partName) s in
  Builder.setPartsOrder (pushPart (partsOrder s1) partName) s1.

(** The object [buildNewObj] allocates for the receiver [this]. *)
Definition blank (this : loc) : selector :=
  mkSelector (Some this) "" "" "" "" "" "" [].

(** The guard of [element], [id] and [pseudoElement]. *)
Definition occurs (partName : part) (s : selector) : bool :=
  singular partName && Js.truthy (Builder.getProp partName s).

(** What one appending call does to a heap in which the receiver [r] is
    the selector [s]: the three paths of a method. *)
Definition appendResult (k : part) (v : string) (r : loc) (s : selector)
  (h : heap) : outcome loc * heap :=
  if occurs k s then (Throw DuplicateSingularPart, h)
  else if Js.truthy (Builder.stringifySel s)
  then (if Builder.everyInSample (partsOrder (processed k v s))
        then Return r else Throw OutOfOrderPart,
        <[r := Selector (processed k v s)]> h)
  else (if Builder.everyInSample (partsOrder (processed k v (blank r)))
        then Return (length h) else Throw OutOfOrderPart,
        h ++ [Selector (processed k v (blank r))]).

(** Client calls made one after the other on references into the heap; a
    call that throws is caught and the run goes on. *)
Inductive call :=
  | CallAppend (partName : part) (value : string) (this : loc)
  | CallCombine (selector1 : loc) (combinator : string) (selector2 : loc).

Definition runCall (c : call) (h : heap) : heap :=
  match c with
  | CallAppend k v r => snd (append k v r h)
  | CallCombine a t b => snd (Builder.combine a t b h)
  end.

Definition runCalls (cs : list call) (h : heap) : heap :=
  fold_left (fun h c => runCall c h) cs h.

(** Heaps used in examples: the builder with the selectors [div] and [p],
    as [builder.element('div')] and [builder.element('p')] leave them, and
    the builder with the selector [.x] of [builder.class('x')]. *)
Definition divSel : selector :=
  mkSelector (Some 0%nat) "div" "" "" "" "" "" [PElement].
Definition pSel : selector :=
  mkSelector (Some 0%nat) "p" "" "" "" "" "" [PElement].
Definition dotX : selector :=
  mkSelector (Some 0%nat) "" "" ".x" "" "" "" [PClass].

Definition demoHeap : heap :=
  [Selector Builder.template; Selector divSel; Selector pSel].
Definition classHeap : heap := [Selector Builder.template; Selector dotX].

(** The attribute descriptor [key=value]. *)
Definition descriptor (kv : string * string) : string :=
  fst kv +:+ "=" +:+ snd kv.

Definition attrCalls (kvs : list (string * string)) : list (part * string) :=
  map (fun kv => (PAttr, descriptor kv)) kvs.

Definition noEquals (kv : string * string) : Prop :=
  hasChar Js.EQ (fst kv) = false /\ hasChar Js.EQ (snd kv) = false.

(** The descriptor [href$=".png"] of the documented example, its double
    quotes written as characters. *)
Definition DQ : ascii := "034"%char.
Definition hrefPng : string :=
  "href$=" +:+ String DQ (".png" +:+ String DQ "").

(** A string that keeps a character once its line feeds are removed. *)
Definition visible (str : string) : bool :=
  Js.truthy (Js.replaceAll Js.LF "" str).

(** The object an appending method works on: the receiver when it has
    output, a new object otherwise. *)
Definition currentOf (r : loc) (s : selector) : selector :=
  if Js.truthy (Builder.stringifySel s) then s else blank r.

(** After the calls [history], every singular part they appended (an
    element only if its name is visible) is set on the selector, which has
    output. *)
Definition singularsSet (history : list (part * string)) (s : selector) : Prop :=
  forall k v0, In (k, v0) history -> singular k = true ->
    (k = PElement -> visible v0 = true) ->
    occurs k s = true /\ Js.truthy (Builder.stringifySel s) = true.

(** After the calls [history], a part they never appended has the empty
    fragment. *)
Definition untouched (history : list (part * string)) (s : selector) : Prop :=
  forall k, ~ In k (map fst history) -> Builder.getProp k s = "".

(** After the calls [history], every part name they appended, ['element']
    apart, is recorded on the selector, which has output. *)
Definition partsRecorded (history : list (part * string)) (s : selector) : Prop :=
  forall k', In k' (map fst history) -> k' <> PElement ->
    In k' (partsOrder s) /\ Js.truthy (Builder.stringifySel s) = true.

(** The recorded names pass [checkElemOrder], and the last one does not
    rank above any of the parts [rest] still to come. *)
Definition ordered (rest : list part) (s : selector) : Prop :=
  Builder.everyInSample (partsOrder s) = true
  /\ forall m, last (partsOrder s) = Some m ->
       Forall (fun k => (rank m <= rank k)%nat) rest.

(** The selector can take the calls [rest], given in canonical order: none
    of their singular parts is set and, if it has output, it is
    [ordered]. *)
Definition ready (rest : list part) (s : selector) : Prop :=
  (forall k, In k rest -> occurs k s = false)
  /\ (Js.truthy (Builder.stringifySel s) = true -> ordered rest s).

(** Two chains of calls made in any interleaving, each on the reference
    its previous call returned; a call that throws leaves the reference of
    its chain where it was. *)
Inductive who := ChainA | ChainB.

Definition next (cur : loc) (res : outcome loc * heap) : loc * heap :=
  match res with
  | (Return r, h) => (r, h)
  | (Throw _, h) => (cur, h)
  end.

Definition stepChains (st : loc * loc * heap) (c : who * (part * string))
  : loc * loc * heap :=
  let '(a, b, h) := st in
  let '(w, (k, v)) := c in
  match w with
  | ChainA => let '(a', h') := next a (append k v a h) in (a', b, h')
  | ChainB => let '(b', h') := next b (append k v b h) in (a, b', h')
  end.

Definition interleave (sched : list (who * (part * string)))
  (st : loc * loc * heap) : loc * loc * heap :=
  fold_left stepChains sched st.

(** What holds of two chains started on the builder. *)
Definition apart (a b : loc) (h : heap) : Prop :=
  h !! Builder.cssSelectorBuilder = Some (Selector Builder.template)
  /\ (a < length h)%nat /\ (b < length h)%nat
  /\ (a = b -> a = Builder.cssSelectorBuilder).

(** ** The other appending methods of the copy without [processElement] *)

Module InlineMethods.

(** [let currentObj = this; if (!this.stringify()) { const newObj = ...;
    newObj.partsOrder = []; currentObj = newObj; }] *)
Definition chooseObj (this : loc) : M loc :=
  let* str := Builder.stringify this in
  if negb (Js.truthy str) then Inline.newObj this else ret this.

Definition element (this : loc) (value : string) : M loc :=
  let* s := getSel this in
  if Js.truthy (elementStr s) then throw (Error Builder.occurExeption)
  else
    let* currentObj := chooseObj this in
    let* c := getSel currentObj in
    run putSel currentObj (Builder.setProp PElement value c) then
    run Builder.addPartToOrder currentObj PElement then
    run Builder.checkElemOrder currentObj then
    ret currentObj.

Definition id (this : loc) (value : string) : M loc :=
  let* s := getSel this in
  if Js.truthy (idStr s) then throw (Error Builder.occurExeption)
  else
    let* currentObj := chooseObj this in
    let* c := getSel currentObj in
    run putSel currentObj (Builder.setProp PId ("#" +:+ value) c) then
    run Builder.addPartToOrder currentObj PId then
    run Builder.checkElemOrder currentObj then
    ret currentObj.

(** [currentObj.classesStr += `.${value}`] *)
Definition class (this : loc) (value : string) : M loc :=
  let* _ := getSel this in
  let* currentObj := chooseObj this in
  let* c := getSel currentObj in
  run putSel currentObj
        (Builder.setProp PClass (classesStr c +:+ "." +:+ value) c) then
  run Builder.addPartToOrder currentObj PClass then
  run Builder.checkElemOrder currentObj then
  ret currentObj.

Definition pseudoClass (this : loc) (value : string) : M loc :=
  let* _ := getSel this in
  let* currentObj := chooseObj this in
  let* c := getSel currentObj in
  run putSel currentObj
        (Builder.setProp PPseudoClass (pseudoClassesStr c +:+ ":" +:+ value) c) then
  run Builder.addPartToOrder currentObj PPseudoClass then
  run Builder.checkElemOrder currentObj then
  ret currentObj.

(** [currentObj.pseudoElementStr += `::${value}`] *)
Definition pseudoElement (this : loc) (value : string) : M loc :=
  let* s := getSel this in
  if Js.truthy (pseudoElementStr s) then throw (Error Builder.occurExeption)
  else
    let* currentObj := chooseObj this in
    let* c := getSel currentObj in
    run putSel currentObj
          (Builder.setProp PPseudoElement
             (pseudoElementStr c +:+ "::" +:+ value) c) then
    run Builder.addPartToOrder currentObj PPseudoElement then
    run Builder.checkElemOrder currentObj then
    ret currentObj.

End InlineMethods.

(** One appending call of the copy without [processElement]. *)
Definition inlineAppend (partName : part) (value : string) (this : loc)
  : M loc :=
  match partName with
  | PElement => InlineMethods.element this value
  | PId => InlineMethods.id this value
  | PClass => InlineMethods.class this value
  | PAttr => Inline.attr this value
  | PPseudoClass => InlineMethods.pseudoClass this value
  | PPseudoElement => InlineMethods.pseudoElement this value
  end.

(** A chain of calls of the copy without [processElement]. *)
Fixpoint inlineChain (calls : list (part * string)) (this : loc) : M loc :=
  match calls with
  | [] => ret this
  | (partName, value) :: calls' =>
      let* next := inlineAppend partName value this in
      inlineChain calls' next
  end.

(** The key of an attribute descriptor: what comes before its first
    ['=']. *)
Definition keyOf (descriptor : string) : string :=
  Js.toStr (Js.split Js.EQ descriptor !! 0%nat).

(** The attribute fragment of every selector of the heap is empty or
    visible. *)
Definition attrsShaped (h : heap) : Prop :=
  forall l s, h !! l = Some (Selector s) ->
    attrStr s = "" \/ visible (attrStr s) = true.

(** ** The date tasks

    A [Date] enters these functions through [getFullYear], through the
    difference of two time values in milliseconds and through
    [getUTCHours] and [getUTCMinutes]: integers, on which the arithmetic of
    numbers is exact below [2^53]. *)

Module DateTasks.

(** [isLeapYear(date)], on [YEAR = date.getFullYear()]; [%] is the
    remainder with the sign of the dividend. *)
Definition isLeapYear (YEAR : Z) : bool :=
  if negb (Z.rem YEAR 4 =? 0) then false
  else if negb (Z.rem YEAR 100 =? 0) then true
  else if negb (Z.rem YEAR 400 =? 0) then false
  else true.

(** The object [tObj] of [getTimeObj]. *)
Record timeObj := mkTimeObj { HH : Z; mm : Z; ss : Z; sss : Z }.

(** [getTimeObj()], on [dDiff = endDate - startDate]; [Math.floor(a / b)]
    for a positive [b] is [a / b].  The difference of two time values is
    taken exact, as it is in the code below [2^53] in magnitude: above
    that the code rounds it, and what follows says nothing. *)
Definition getTimeObj (dDiff : Z) : timeObj :=
  let HH := dDiff / (60 * 60 * 1000) in
  let mm := (dDiff - HH * 60 * 60 * 1000) / (60 * 1000) in
  let ss := (dDiff - HH * 60 * 60 * 1000 - mm * 60 * 1000) / 1000 in
  let sss := Z.rem dDiff 1000 in
  mkTimeObj HH mm ss sss.

(** [value.toString()] and [`${value}`] for an integer: the decimal digits,
    after ['-'] for a negative one. *)
Definition numberToString (value : Z) : string :=
  NilZero.string_of_int (Z.to_int value).

(** [Object.entries(timeObj)]: the keys in the order they were written. *)
Definition entries (t : timeObj) : list (string * Z) :=
  [("HH", HH t); ("mm", mm t); ("ss", ss t); ("sss", sss t)].

(** The function mapped over the entries in [convertForOutput]. *)
Definition convertEntry (kv : string * Z) : string * string :=
  let '(key, value) := kv in
  let str := numberToString value in
  if Nat.eqb (String.length str) 1
     || (Nat.eqb (String.length str) 2 && Nat.eqb (String.length key) 3)
  then
    if Nat.eqb (String.length key) 2 then (key, "0" +:+ str)
    else (key, "00" +:+ str)
  else (key, str).

(** [convertForOutput(timeObj)]: [Object.fromEntries] of the mapped
    entries, kept as the list of its properties. *)
Definition convertForOutput (t : timeObj) : list (string * string) :=
  map convertEntry (entries t).

(** [`${time.key}`] *)
Fixpoint prop (key : string) (time : list (string * string)) : string :=
  match time with
  | [] => "undefined"
  | (k, v) :: time' => if String.eqb k key then v else prop key time'
  end.

(** [timeSpanToString(startDate, endDate)], on the two time values. *)
Definition timeSpanToString (startDate endDate : Z) : string :=
  let rawTime := getTimeObj (endDate - startDate) in
  let time := convertForOutput rawTime in
  prop "HH" time +:+ ":" +:+ prop "mm" time +:+ ":" +:+ prop "ss" time
  +:+ "." +:+ prop "sss" time.

(** The value [resultAngle] of [angleBetweenClockHands(date)], in degrees,
    on [hours = date.getUTCHours()] and [minutes = date.getUTCMinutes()];
    the function returns it times [Math.PI / 180]. *)
Definition resultAngle (hours minutes : Z) : Q :=
  let HH := if hours >? 11 then hours - 12 else hours in
  let MM := minutes in
  let handHH := (0.5 * inject_Z (HH * 60 + MM))%Q in
  let handMM := inject_Z (6 * MM) in
  let angle := Qabs (handHH - handMM) in
  if Qlt_le_dec 180 angle then (360 - angle)%Q else angle.

End DateTasks.

(** ** Vocabulary of the further properties *)

(** The text one appending call other than [attr] adds to the output: the
    name after the sigil of its part. *)
Definition piece (c : part * string) : string :=
  match fst c with
  | PElement => snd c
  | PId => "#" +:+ snd c
  | PClass => "." +:+ snd c
  | PAttr => ""
  | PPseudoClass => ":" +:+ snd c
  | PPseudoElement => "::" +:+ snd c
  end.

Fixpoint pieces (calls : list (part * string)) : string :=
  match calls with
  | [] => ""
  | c :: calls' => piece c +:+ pieces calls'
  end.

(** A part ranking above every recorded name has the empty fragment. *)
Definition emptyAbove (s : selector) : Prop :=
  forall k, (forall p, In p (partsOrder s) -> (rank p < rank k)%nat) ->
    Builder.getProp k s = "".

(** The output is the text of the calls made, as long as none is [attr]. *)
Definition rendersHistory (history : list (part * string)) (s : selector)
  : Prop :=
  emptyAbove s
  /\ (~ In PAttr (map fst history) ->
      Builder.stringifySel s = Js.replaceAll Js.LF "" (pieces history)).

(** What [attr] writes for one descriptor: the first two pieces that
    [split('=')] cuts, [undefined] for a missing one, around ['=']. *)
Definition attrText (d : string) : string :=
  Js.toStr (Js.split Js.EQ d !! 0%nat) +:+ "="
  +:+ Js.toStr (Js.split Js.EQ d !! 1%nat).

(** The attribute fragment: one pair of brackets around the texts joined
    by spaces, and nothing for no text. *)
Definition bracket (texts : list string) : string :=
  match texts with
  | [] => ""
  | _ => "[" +:+ Js.join " " texts +:+ "]"
  end.

(** The calls before [attr] in the canonical order, those after it, and
    the texts of the [attr] calls. *)
Definition lowCalls (calls : list (part * string)) : list (part * string) :=
  List.filter (fun c => (rank (fst c) <? 3)%nat) calls.
Definition highCalls (calls : list (part * string)) : list (part * string) :=
  List.filter (fun c => (3 <? rank (fst c))%nat) calls.
Definition attrTexts (calls : list (part * string)) : list string :=
  map (fun c => attrText (snd c))
    (List.filter (fun c => (rank (fst c) =? 3)%nat) calls).

(** The text of a whole chain: element, id and classes, the bracket of the
    attributes, pseudo-classes and pseudo-element. *)
Definition rendering (calls : list (part * string)) : string :=
  pieces (lowCalls calls) +:+ bracket (attrTexts calls)
  +:+ pieces (highCalls calls).

(** The fragments before and after the attribute fragment. *)
Definition lowStr (s : selector) : string :=
  elementStr s +:+ idStr s +:+ classesStr s.
Definition highStr (s : selector) : string :=
  pseudoClassesStr s +:+ pseudoElementStr s.

Definition rendersAll (history : list (part * string)) (s : selector) : Prop :=
  emptyAbove s
  /\ partsRecorded history s
  /\ Builder.stringifySel s = Js.replaceAll Js.LF "" (rendering history)
  /\ attrStr s = bracket (attrTexts history).


(** The recorded names rank strictly increasingly. *)
Definition increasing (s : selector) : Prop :=
  StronglySorted (fun a b => (rank a < rank b)%nat) (partsOrder s).

(** The leap years among the [n] years from [y] on. *)
Definition leapYearsFrom (y : Z) (n : nat) : list Z :=
  filter (fun x => DateTasks.isLeapYear x = true)
    (map (fun i => y + Z.of_nat i) (seq 0 n)).

(** What holds of [resultAngle] at [hours] and [minutes], as a test. *)
Definition angleChecks (hours minutes : Z) : bool :=
  let r := DateTasks.resultAngle hours minutes in
  Qle_bool 0 r && Qle_bool r 180
  && ((11 <? hours) || Qeq_bool (DateTasks.resultAngle (hours + 12) minutes) r)
  && Bool.eqb (Qeq_bool r 0)
       (((hours =? 0) || (hours =? 12)) && (minutes =? 0))
  && Bool.eqb (Qeq_bool r 180)
       (((hours =? 6) || (hours =? 18)) && (minutes =? 0)).

(** Two and three decimal digits. *)
Definition digit (n : Z) : ascii := ascii_of_nat (48 + Z.to_nat n).
Definition twoDigits (n : Z) : string :=
  String (digit (n / 10)) (String (digit (n mod 10)) "").
Definition threeDigits (n : Z) : string :=
  String (digit (n / 100)) (twoDigits (n mod 100)).

(** ** The examples of the documentation comment *)

Example ex_doc1 :
  (let* r := chain [(PId, "main"); (PClass, "container"); (PClass, "editable")]
               Builder.cssSelectorBuilder in
   Builder.stringify r) Builder.initialHeap
  = (Return "#main.container.editable",
     [Selector Builder.template;
      Selector (mkSelector (Some 0%nat) "" "#main" ".container.editable" "" "" ""
                  [PId; PClass])]).
Proof. reflexivity. Qed.

Example ex_doc2 :
  fst ((let* r := chain [(PElement, "a"); (PAttr, hrefPng);
                         (PPseudoClass, "focus")] Builder.cssSelectorBuilder in
        Builder.stringify r) Builder.initialHeap)
  = Return ("a[href$=" +:+ String DQ (".png" +:+ String DQ "]:focus")).
Proof. reflexivity. Qed.

Example ex_doc3 :
  fst ((let* div := chain [(PElement, "div"); (PId, "main");
                           (PClass, "container"); (PClass, "draggable")]
                      Builder.cssSelectorBuilder in
        let* table := chain [(PElement, "table"); (PId, "data")]
                        Builder.cssSelectorBuilder in
        let* tr := chain [(PElement, "tr"); (PPseudoClass, "nth-of-type(even)")]
                     Builder.cssSelectorBuilder in
        let* td := chain [(PElement, "td"); (PPseudoClass, "nth-of-type(even)")]
                     Builder.cssSelectorBuilder in
        let* inner := Builder.combine tr " " td in
        let* middle := Builder.combine table "~" inner in
        let* outer := Builder.combine div "+" middle in
        Builder.stringify outer) Builder.initialHeap)
  = Return "div#main.container.draggable + table#data ~ tr:nth-of-type(even)   td:nth-of-type(even)".
Proof. reflexivity. Qed.

(** * Facts about the primitives *)

Section JsFacts.

Lemma str_app_assoc (a b c : string) : (a +:+ b) +:+ c = a +:+ b +:+ c.
Proof. induction a as [|x a IH]; simpl; [reflexivity | now rewrite IH]. Qed.

Lemma str_length_app (a b : string) :
  String.length (a +:+ b) = (String.length a + String.length b)%nat.
Proof. induction a as [|x a IH]; simpl; [reflexivity | now rewrite IH]. Qed.

Lemma truthy_false (s : string) : Js.truthy s = false <-> s = "".
Proof. destruct s; simpl; split; congruence. Qed.

Lemma truthy_true (s : string) : Js.truthy s = true <-> s <> "".
Proof. destruct s; simpl; split; congruence. Qed.

Lemma truthy_app (a b : string) :
  Js.truthy (a +:+ b) = Js.truthy a || Js.truthy b.
Proof. destruct a; reflexivity. Qed.

Lemma replaceAll_app c r (a b : string) :
  Js.replaceAll c r (a +:+ b) = Js.replaceAll c r a +:+ Js.replaceAll c r b.
Proof.
  induction a as [|x a IH]; simpl; [reflexivity|].
  destruct (Ascii.eqb x c); rewrite IH; [|reflexivity].
  now rewrite str_app_assoc.
Qed.

Lemma hasChar_app c (a b : string) :
  hasChar c (a +:+ b) = hasChar c a || hasChar c b.
Proof.
  induction a as [|x a IH]; simpl; [reflexivity|].
  now rewrite IH, orb_assoc.
Qed.

Lemma replaceAll_absent c r (s : string) :
  hasChar c s = false -> Js.replaceAll c r s = s.
Proof.
  induction s as [|x s IH]; simpl; [reflexivity|].
  intros [Hx Hs]%orb_false_iff. rewrite Hx. now rewrite IH.
Qed.

Lemma substring_prefix (a b : string) :
  String.substring 0 (String.length a) (a +:+ b) = a.
Proof.
  induction a as [|x a IH]; simpl; [now destruct b | now rewrite IH].
Qed.

(** [('[' + s + ']').slice(1, -1)] is [s]. *)
Lemma sliceStr_brackets (s : string) :
  Js.sliceStr ("[" +:+ s +:+ "]") 1 (-1) = s.
Proof.
  unfold Js.sliceStr, Js.relIndex. simpl String.length.
  rewrite str_length_app. simpl String.length.
  replace (1 <? 0) with false by reflexivity.
  replace (-1 <? 0) with true by reflexivity.
  set (n := String.length s).
  replace (Z.to_nat (Z.min 1 (Z.of_nat (S (n + 1))))) with 1%nat by lia.
  replace (Z.to_nat (Z.max (Z.of_nat (S (n + 1)) + -1) 0
                     - Z.min 1 (Z.of_nat (S (n + 1))))) with n by lia.
  simpl. apply substring_prefix.
Qed.

Lemma at_last {A} (l : list A) : Js.at_ l (-1) = last l.
Proof.
  unfold Js.at_. replace (-1 <? 0) with true by reflexivity.
  rewrite last_lookup. destruct l as [|x l]; [reflexivity|].
  replace (Z.of_nat (length (x :: l)) + -1 <? 0) with false
    by (symmetry; apply Z.ltb_ge; simpl length; lia).
  replace (Z.of_nat (length (x :: l)) <=? Z.of_nat (length (x :: l)) + -1)
    with false by (symmetry; apply Z.leb_gt; lia).
  simpl orb. cbv iota. f_equal. simpl length. lia.
Qed.

Lemma sliceArr_init {A} (l : list A) : Js.sliceArr l 0 (-1) = removelast l.
Proof.
  unfold Js.sliceArr, Js.relIndex.
  replace (0 <? 0) with false by reflexivity.
  replace (-1 <? 0) with true by reflexivity.
  replace (Z.to_nat (Z.min 0 (Z.of_nat (length l)))) with 0%nat by lia.
  rewrite drop_0.
  induction l as [|x l' _] using rev_ind; [reflexivity|].
  rewrite removelast_last, length_app. simpl length.
  replace (Z.to_nat _) with (length l') by lia.
  apply take_app_length.
Qed.

End JsFacts.

(** * The methods as functions on the receiver's state *)

Section Methods.

Lemma setPartsOrder_same (s : selector) :
  Builder.setPartsOrder (partsOrder s) s = s.
Proof. now destruct s. Qed.

Lemma partsOrder_setProp k v s :
  partsOrder (Builder.setProp k v s) = partsOrder s.
Proof. now destruct k. Qed.

Lemma partsOrder_processed k v s :
  partsOrder (processed k v s) = pushPart (partsOrder s) k.
Proof. unfold processed. simpl. now rewrite partsOrder_setProp. Qed.

Lemma lookup_snoc (h : heap) (o : obj) : (h ++ [o]) !! length h = Some o.
Proof. rewrite lookup_app_r by lia. now rewrite Nat.sub_diag. Qed.

Lemma insert_snoc (h : heap) (o o' : obj) :
  <[length h := o']> (h ++ [o]) = h ++ [o'].
Proof.
  rewrite insert_app_r_alt by lia. now rewrite Nat.sub_diag.
Qed.

Lemma processElement_run (h : heap) (r : loc) (s : selector) k v :
  h !! r = Some (Selector s) ->
  Builder.processElement r v k h
  = (if Builder.everyInSample (partsOrder (processed k v s))
     then Return tt else Throw OutOfOrderPart,
     <[r := Selector (processed k v s)]> h).
Proof.
  intros Hr. pose proof (lookup_lt_Some _ _ _ Hr) as Hlt.
  unfold Builder.processElement, bind, getSel at 1. rewrite Hr.
  unfold putSel at 1.
  set (s1 := Builder.setProp k (Builder.currentValue s v k) s).
  unfold Builder.addPartToOrder, bind, getSel at 1.
  rewrite list_lookup_insert_eq by exact Hlt.
  rewrite at_last.
  assert (Hp : processed k v s
               = Builder.setPartsOrder (pushPart (partsOrder s1) k) s1)
    by reflexivity.
  unfold pushPart in Hp.
  destruct (bool_decide (last (partsOrder s1) <> Some k)).
  - unfold putSel. rewrite list_insert_insert_eq.
    unfold Builder.checkElemOrder, bind, getSel.
    rewrite list_lookup_insert_eq by exact Hlt.
    rewrite <- Hp.
    now destruct (Builder.everyInSample (partsOrder (processed k v s))).
  - unfold ret. rewrite setPartsOrder_same in Hp.
    unfold Builder.checkElemOrder, bind, getSel.
    rewrite list_lookup_insert_eq by exact Hlt.
    rewrite <- Hp.
    now destruct (Builder.everyInSample (partsOrder (processed k v s))).
Qed.

Lemma stringify_sel (h : heap) (r : loc) (s : selector) :
  h !! r = Some (Selector s) ->
  Builder.stringify r h = (Return (Builder.stringifySel s), h).
Proof. intros Hr. unfold Builder.stringify. now rewrite Hr. Qed.

Lemma stringify_node (h : heap) (r : loc) (str : string) :
  h !! r = Some (Combined str) ->
  Builder.stringify r h = (Return str, h).
Proof. intros Hr. unfold Builder.stringify. now rewrite Hr. Qed.

Lemma body_run (h : heap) (r : loc) (s : selector) k v :
  h !! r = Some (Selector s) ->
  (let* currentObj := Builder.currentObjOf r in
   run Builder.processElement currentObj v k then
   ret currentObj) h
  = if Js.truthy (Builder.stringifySel s)
    then (if Builder.everyInSample (partsOrder (processed k v s))
          then Return r else Throw OutOfOrderPart,
          <[r := Selector (processed k v s)]> h)
    else (if Builder.everyInSample (partsOrder (processed k v (blank r)))
          then Return (length h) else Throw OutOfOrderPart,
          h ++ [Selector (processed k v (blank r))]).
Proof.
  intros Hr. unfold bind at 1. unfold Builder.currentObjOf, bind at 1.
  rewrite (stringify_sel _ _ _ Hr).
  destruct (Js.truthy (Builder.stringifySel s)).
  - unfold ret at 1. unfold bind.
    rewrite (processElement_run _ _ _ _ _ Hr).
    now destruct (Builder.everyInSample _).
  - unfold Builder.buildNewObj, alloc, bind.
    rewrite (processElement_run _ _ (blank r) _ _ (lookup_snoc h _)).
    rewrite insert_snoc.
    now destruct (Builder.everyInSample _).
Qed.

Lemma append_run (h : heap) (r : loc) (s : selector) k v :
  h !! r = Some (Selector s) ->
  append k v r h = appendResult k v r s h.
Proof.
  intros Hr. pose proof (body_run h r s k v Hr) as Hb.
  unfold appendResult, occurs.
  destruct k; simpl singular; simpl Builder.getProp; simpl andb;
    unfold append, Builder.element, Builder.id, Builder.class, Builder.attr,
      Builder.pseudoClass, Builder.pseudoElement;
    unfold bind at 1, getSel at 1; rewrite Hr;
    try match goal with
        | |- context [if Js.truthy ?f then throw _ else _] =>
            destruct (Js.truthy f); [reflexivity|]
        end;
    exact Hb.
Qed.

Lemma includes_sample (k item : part) :
  Js.includes
    (Js.sliceArr Builder.correctOrder 0
       (Js.indexOf Builder.correctOrder (Some k))) item
  = bool_decide (rank item < rank k)%nat.
Proof. destruct k, item; reflexivity. Qed.

(** [checkElemOrder] passes exactly when every name before the last one
    ranks strictly below it. *)
Lemma everyInSample_spec (po : list part) :
  Builder.everyInSample po
  = match last po with
    | Some k => forallb (fun i => bool_decide (rank i < rank k)%nat)
                  (removelast po)
    | None => true
    end.
Proof.
  unfold Builder.everyInSample. rewrite at_last, sliceArr_init.
  destruct (last po) as [k|] eqn:Hl.
  - unfold Js.every. induction (removelast po) as [|i l IH].
    + reflexivity.
    + cbn [forallb]. now rewrite includes_sample, IH.
  - apply last_None in Hl. now subst po.
Qed.

Lemma rank_inj (a b : part) : rank a = rank b -> a = b.
Proof. destruct a, b; simpl; congruence. Qed.

Lemma pushPart_last po k : last (pushPart po k) = Some k.
Proof.
  unfold pushPart. case_bool_decide as Hd.
  - apply last_snoc.
  - destruct (decide (last po = Some k)) as [E|E]; [exact E | tauto].
Qed.

Lemma pushPart_init po k :
  removelast (pushPart po k)
  = if bool_decide (last po <> Some k) then po else removelast po.
Proof.
  unfold pushPart. case_bool_decide; [apply removelast_last | reflexivity].
Qed.

Lemma everyInSample_push po k :
  Builder.everyInSample (pushPart po k)
  = forallb (fun i => bool_decide (rank i < rank k)%nat)
      (if bool_decide (last po <> Some k) then po else removelast po).
Proof. now rewrite everyInSample_spec, pushPart_last, pushPart_init. Qed.

Lemma everyInSample_blank k v r :
  Builder.everyInSample (partsOrder (processed k v (blank r))) = true.
Proof. rewrite partsOrder_processed. now destruct k. Qed.

End Methods.

(** * Rendering: [stringify] and the attribute fragment *)

Section Rendering.

Lemma stringifySel_fragments (s : selector) :
  Builder.stringifySel s = Js.replaceAll Js.LF "" (fragments s).
Proof.
  unfold Builder.stringifySel, Builder.stringifyRaw, fragments.
  repeat (cbn [Js.replaceAll]; change (Ascii.eqb Js.LF Js.LF) with true;
          cbv iota; change ("" +:+ ?x) with x; rewrite replaceAll_app).
  reflexivity.
Qed.

Lemma split_absent c (d : string) :
  hasChar c d = false -> Js.split c d = [d].
Proof.
  induction d as [|x d IH]; simpl; [reflexivity|].
  intros [Hx Hd]%orb_false_iff. rewrite Hx. now rewrite IH.
Qed.

Lemma split_first c (k v : string) :
  hasChar c k = false ->
  Js.split c (k +:+ String c v) = k :: Js.split c v.
Proof.
  induction k as [|x k IH]; simpl.
  - intros _. now rewrite Ascii.eqb_refl.
  - intros [Hx Hk]%orb_false_iff. rewrite Hx. now rewrite IH.
Qed.


(** The fragment of a descriptor [key=value] with a single ['=']. *)
Lemma attrValue_pair (s : selector) (key value : string) :
  hasChar Js.EQ key = false -> hasChar Js.EQ value = false ->
  Builder.attrValue s (key +:+ "=" +:+ value)
  = if Js.truthy (Js.sliceStr (attrStr s) 1 (-1))
    then "[" +:+ Js.sliceStr (attrStr s) 1 (-1) +:+ " " +:+ key +:+ "="
         +:+ value +:+ "]"
    else "[" +:+ key +:+ "=" +:+ value +:+ "]".
Proof.
  intros Hk Hv. unfold Builder.attrValue.
  change ("=" +:+ value) with (String Js.EQ value).
  rewrite (split_first _ _ _ Hk), (split_absent _ _ Hv).
  cbn [lookup list_lookup Js.toStr map Js.join].
  now rewrite !str_app_assoc.
Qed.

End Rendering.

(** * Facts about [stringify] and [combine] *)

Section Serialization.

Lemma stringify_frame (h k : heap) (a : loc) (sa : string) :
  Builder.stringify a h = (Return sa, h) ->
  Builder.stringify a (h ++ k) = (Return sa, h ++ k).
Proof.
  unfold Builder.stringify.
  destruct (h !! a) as [o|] eqn:Ha; [|discriminate].
  rewrite (lookup_app_l_Some _ _ _ _ Ha).
  destruct o; intros [= <-]; reflexivity.
Qed.

Lemma combine_run (h : heap) (a b : loc) (token sa sb : string) :
  Builder.stringify a h = (Return sa, h) ->
  Builder.stringify b h = (Return sb, h) ->
  Builder.combine a token b h
  = (Return (length h),
     h ++ [Combined (sa +:+ " " +:+ token +:+ " " +:+ sb)]).
Proof.
  intros Ha Hb. unfold Builder.combine, bind. now rewrite Ha, Hb.
Qed.

End Serialization.

(** * [combine] keeps a snapshot *)

Section Snapshot.

Lemma append_not_selector (h : heap) (r : loc) k v :
  (forall s, h !! r <> Some (Selector s)) ->
  append k v r h = (Throw TypeError, h).
Proof.
  intros Hn.
  assert (Hg : getSel r h = (Throw TypeError, h)).
  { unfold getSel. destruct (h !! r) as [[s|str]|] eqn:E;
      [now destruct (Hn s) | reflexivity | reflexivity]. }
  destruct k; unfold append, Builder.element, Builder.id, Builder.class,
    Builder.attr, Builder.pseudoClass, Builder.pseudoElement;
    unfold bind at 1; now rewrite Hg.
Qed.

(** An appending call leaves every node where and as it is. *)
Lemma append_keeps_node (h : heap) (r l : loc) k v (str : string) :
  h !! l = Some (Combined str) ->
  snd (append k v r h) !! l = Some (Combined str).
Proof.
  intros Hl. destruct (h !! r) as [[s|str']|] eqn:Hr.
  - rewrite (append_run _ _ _ _ _ Hr). unfold appendResult.
    destruct (occurs k s); [exact Hl|].
    destruct (Js.truthy _); cbn [snd].
    + rewrite list_lookup_insert_ne; [exact Hl | congruence].
    + now apply lookup_app_l_Some.
  - rewrite append_not_selector; [exact Hl | congruence].
  - rewrite append_not_selector; [exact Hl | congruence].
Qed.

Lemma combine_heap (h : heap) (a b : loc) (t : string) :
  snd (Builder.combine a t b h) = h
  \/ exists o, snd (Builder.combine a t b h) = h ++ [o].
Proof.
  unfold Builder.combine, bind, Builder.stringify, alloc.
  destruct (h !! a) as [[?|?]|]; destruct (h !! b) as [[?|?]|];
    cbn [snd]; eauto.
Qed.

Lemma runCall_keeps_node (c : call) (h : heap) (l : loc) (str : string) :
  h !! l = Some (Combined str) ->
  runCall c h !! l = Some (Combined str).
Proof.
  intros Hl. destruct c as [k v r | a t b]; cbn [runCall].
  - now apply append_keeps_node.
  - destruct (combine_heap h a b t) as [-> | [o ->]];
      [exact Hl | now apply lookup_app_l_Some].
Qed.

Lemma runCalls_keeps_node (cs : list call) (h : heap) (l : loc) str :
  h !! l = Some (Combined str) ->
  runCalls cs h !! l = Some (Combined str).
Proof.
  revert h. induction cs as [|c cs IH]; intros h Hl; [exact Hl|].
  cbn [runCalls fold_left]. apply IH. now apply runCall_keeps_node.
Qed.

End Snapshot.

(** * Attribute fragments *)

Section Attributes.

Lemma truthy_replaceAll_cons (x : ascii) (s : string) :
  Ascii.eqb x Js.LF = false ->
  Js.truthy (Js.replaceAll Js.LF "" (String x s)) = true.
Proof. intros Hx. cbn [Js.replaceAll]. now rewrite Hx. Qed.

Lemma truthy_stringify_attr (s : selector) (inner : string) :
  attrStr s = "[" +:+ inner +:+ "]" ->
  Js.truthy (Builder.stringifySel s) = true.
Proof.
  intros Ha. rewrite stringifySel_fragments. unfold fragments.
  rewrite !replaceAll_app, !truthy_app, Ha.
  change ("[" +:+ inner +:+ "]") with (String "[" (inner +:+ "]")).
  rewrite truthy_replaceAll_cons by reflexivity.
  now rewrite !orb_true_r.
Qed.

Lemma join_cons_app (a d : string) (rest : list string) :
  Js.join " " ((a +:+ " " +:+ d) :: rest) = a +:+ " " +:+ Js.join " " (d :: rest).
Proof.
  destruct rest as [|x rest]; [reflexivity|].
  cbn [Js.join]. now rewrite !str_app_assoc.
Qed.

Lemma attrStr_processed_attr (s : selector) (d : string) :
  attrStr (processed PAttr d s) = Builder.attrValue s d.
Proof. reflexivity. Qed.

(** Appending attributes to a selector that already ends in attributes. *)
Lemma attr_chain_in_place (kvs : list (string * string)) :
  Forall noEquals kvs ->
  forall (h : heap) (r : loc) (s : selector) (inner : string),
    h !! r = Some (Selector s) ->
    attrStr s = "[" +:+ inner +:+ "]" -> inner <> "" ->
    last (partsOrder s) = Some PAttr ->
    Builder.everyInSample (partsOrder s) = true ->
    exists h' s',
      chain (attrCalls kvs) r h = (Return r, h')
      /\ h' !! r = Some (Selector s')
      /\ attrStr s'
         = "[" +:+ Js.join " " (inner :: map descriptor kvs) +:+ "]".
Proof.
  induction 1 as [|[key value] kvs [Hk Hv] _ IH];
    intros h r s inner Hr Ha Hi Hl Ho.
  - exists h, s. repeat split; [exact Hr | exact Ha].
  - cbn [attrCalls map chain]. unfold bind.
    rewrite (append_run _ _ _ _ _ Hr). unfold appendResult.
    change (occurs PAttr s) with false. cbv iota.
    rewrite (truthy_stringify_attr _ _ Ha).
    assert (Hp : partsOrder (processed PAttr (descriptor (key, value)) s)
                 = partsOrder s).
    { rewrite partsOrder_processed. unfold pushPart.
      rewrite bool_decide_eq_false_2; [reflexivity | tauto]. }
    rewrite Hp, Ho.
    pose proof (lookup_lt_Some _ _ _ Hr) as Hlt.
    destruct (IH (<[r := Selector (processed PAttr (descriptor (key, value)) s)]> h)
                r (processed PAttr (descriptor (key, value)) s)
                (inner +:+ " " +:+ descriptor (key, value)))
      as (h' & s' & Hc & Hr' & Ha').
    + now apply list_lookup_insert_eq.
    + rewrite attrStr_processed_attr. unfold descriptor. cbn [fst snd].
      rewrite (attrValue_pair _ _ _ Hk Hv), Ha, sliceStr_brackets.
      rewrite (proj2 (truthy_true inner) Hi).
      now rewrite !str_app_assoc.
    + destruct inner; [congruence | discriminate].
    + now rewrite Hp.
    + now rewrite Hp.
    + exists h', s'. split; [exact Hc|]. split; [exact Hr'|].
      rewrite Ha'. cbn [map]. now rewrite join_cons_app.
Qed.

(** The first attribute appended on the builder, then the others. *)
Lemma attr_chain_builder (kv : string * string) (kvs : list (string * string))
  (h : heap) (r : loc) (s : selector) :
  Forall noEquals (kv :: kvs) ->
  h !! r = Some (Selector s) ->
  Js.truthy (Builder.stringifySel s) = false ->
  exists h' s',
    chain (attrCalls (kv :: kvs)) r h = (Return (length h), h')
    /\ h' !! length h = Some (Selector s')
    /\ attrStr s' = "[" +:+ Js.join " " (map descriptor (kv :: kvs)) +:+ "]".
Proof.
  intros Hall Hr Hs. inversion Hall as [|? ? [Hk Hv] Hrest]; subst.
  cbn [attrCalls map chain]. unfold bind at 1.
  rewrite (append_run _ _ _ _ _ Hr). unfold appendResult.
  change (occurs PAttr s) with false. cbv iota.
  rewrite Hs, everyInSample_blank.
  destruct (attr_chain_in_place kvs Hrest
              (h ++ [Selector (processed PAttr (descriptor kv) (blank r))])
              (length h) (processed PAttr (descriptor kv) (blank r))
              (descriptor kv))
    as (h' & s' & Hc & Hr' & Ha').
  - apply lookup_snoc.
  - rewrite attrStr_processed_attr. unfold descriptor.
    rewrite (attrValue_pair _ _ _ Hk Hv).
    change (Js.sliceStr (attrStr (blank r)) 1 (-1)) with "".
    cbv iota beta delta [Js.truthy]. now rewrite !str_app_assoc.
  - unfold descriptor. destruct (fst kv); discriminate.
  - reflexivity.
  - reflexivity.
  - exists h', s'. split; [exact Hc|]. split; [exact Hr'|]. exact Ha'.
Qed.

End Attributes.

(** * One appending call *)

Section OneCall.

Lemma truthy_stringifySel (s : selector) :
  Js.truthy (Builder.stringifySel s)
  = visible (elementStr s) || visible (idStr s) || visible (classesStr s)
    || visible (attrStr s) || visible (pseudoClassesStr s)
    || visible (pseudoElementStr s).
Proof.
  rewrite stringifySel_fragments. unfold fragments, visible.
  rewrite !replaceAll_app, !truthy_app. now rewrite !orb_assoc.
Qed.

Lemma visible_app (a b : string) : visible (a +:+ b) = visible a || visible b.
Proof. unfold visible. now rewrite replaceAll_app, truthy_app. Qed.

Lemma visible_truthy (a : string) : visible a = true -> Js.truthy a = true.
Proof. destruct a; [discriminate | reflexivity]. Qed.

Lemma visible_attrValue (s : selector) (d : string) :
  visible (Builder.attrValue s d) = true.
Proof. unfold Builder.attrValue. now destruct (Js.truthy _). Qed.

(** Every fragment but an element name starts with or holds its sigil. *)
Lemma visible_currentValue k v (s : selector) :
  k <> PElement -> visible (Builder.currentValue s v k) = true.
Proof.
  destruct k; intros Hk; try congruence; cbn [Builder.currentValue];
    rewrite ?visible_app, ?visible_attrValue;
    try reflexivity; apply orb_true_r.
Qed.

Lemma getProp_processed_same k v (s : selector) :
  Builder.getProp k (processed k v s) = Builder.currentValue s v k.
Proof. now destruct k. Qed.

Lemma getProp_processed_other k k' v (s : selector) :
  k' <> k -> Builder.getProp k' (processed k v s) = Builder.getProp k' s.
Proof. destruct k, k'; intros Hk; try congruence; reflexivity. Qed.

Lemma output_processed_sigil k v (s : selector) :
  k <> PElement -> Js.truthy (Builder.stringifySel (processed k v s)) = true.
Proof.
  intros Hk. pose proof (visible_currentValue k v s Hk) as Hv.
  rewrite truthy_stringifySel.
  destruct k; try congruence; cbn [Builder.currentValue] in Hv;
    unfold processed;
    cbn [Builder.setProp Builder.currentValue Builder.setPartsOrder
         elementStr idStr classesStr attrStr pseudoClassesStr
         pseudoElementStr];
    rewrite Hv; now rewrite ?orb_true_r.
Qed.

Lemma output_processed_element v (s : selector) :
  visible v = true ->
  Js.truthy (Builder.stringifySel (processed PElement v s)) = true.
Proof.
  intros Hv. rewrite truthy_stringifySel. unfold processed.
  cbn [Builder.setProp Builder.currentValue Builder.setPartsOrder
       elementStr idStr classesStr attrStr pseudoClassesStr pseudoElementStr].
  now rewrite Hv.
Qed.

Lemma output_processed_mono k v (s : selector) :
  occurs k s = false ->
  Js.truthy (Builder.stringifySel s) = true ->
  Js.truthy (Builder.stringifySel (processed k v s)) = true.
Proof.
  intros Ho Hs. destruct (decide (k = PElement)) as [-> | Hk].
  - unfold occurs in Ho. cbn [singular andb Builder.getProp] in Ho.
    apply truthy_false in Ho.
    rewrite truthy_stringifySel in *. unfold processed.
    cbn [Builder.setProp Builder.currentValue Builder.setPartsOrder
         elementStr idStr classesStr attrStr pseudoClassesStr
         pseudoElementStr].
    rewrite Ho in Hs. cbn [visible Js.replaceAll Js.truthy orb] in Hs.
    rewrite <- !orb_assoc in *. rewrite Hs. apply orb_true_r.
  - now apply output_processed_sigil.
Qed.

Lemma in_pushPart_new po k : In k (pushPart po k).
Proof.
  pose proof (pushPart_last po k) as Hl.
  apply last_Some in Hl as [l' ->]. apply in_or_app. right. now left.
Qed.

Lemma in_pushPart_old po k k' : In k' po -> In k' (pushPart po k).
Proof.
  unfold pushPart. case_bool_decide; [|easy].
  intros Hi. apply in_or_app. now left.
Qed.

(** What a call that returned has done. *)
Lemma append_returns (h h1 : heap) (r r1 : loc) (s : selector) k v :
  h !! r = Some (Selector s) ->
  append k v r h = (Return r1, h1) ->
  occurs k s = false
  /\ Builder.everyInSample (partsOrder (processed k v (currentOf r s))) = true
  /\ h1 !! r1 = Some (Selector (processed k v (currentOf r s)))
  /\ (if Js.truthy (Builder.stringifySel s)
      then r1 = r /\ h1 = <[r := Selector (processed k v s)]> h
      else r1 = length h /\ h1 = h ++ [Selector (processed k v (blank r))]).
Proof.
  intros Hr. rewrite (append_run _ _ _ _ _ Hr). unfold appendResult, currentOf.
  pose proof (lookup_lt_Some _ _ _ Hr) as Hlt.
  destruct (occurs k s); [discriminate|].
  destruct (Js.truthy (Builder.stringifySel s)).
  - destruct (Builder.everyInSample _); [|discriminate].
    intros [= <- <-]. repeat split. now apply list_lookup_insert_eq.
  - destruct (Builder.everyInSample _); [|discriminate].
    intros [= <- <-]. repeat split. apply lookup_snoc.
Qed.

(** What a call that threw has done. *)
Lemma append_throws (h h1 : heap) (r : loc) (s : selector) k v e :
  h !! r = Some (Selector s) ->
  append k v r h = (Throw e, h1) ->
  (e = DuplicateSingularPart /\ occurs k s = true /\ h1 = h)
  \/ (e = OutOfOrderPart /\ occurs k s = false
      /\ Js.truthy (Builder.stringifySel s) = true
      /\ Builder.everyInSample (pushPart (partsOrder s) k) = false
      /\ h1 = <[r := Selector (processed k v s)]> h).
Proof.
  intros Hr. rewrite (append_run _ _ _ _ _ Hr). unfold appendResult.
  destruct (occurs k s); [intros [= <- <-]; now left|].
  destruct (Js.truthy (Builder.stringifySel s)).
  - rewrite partsOrder_processed.
    destruct (Builder.everyInSample _); [discriminate|].
    intros [= <- <-]. right. repeat split.
  - rewrite everyInSample_blank. discriminate.
Qed.

End OneCall.

(** * Chains of calls that returned *)

Section ChainInduction.

(** A property [P history s] of the calls made so far and the selector
    they led to, kept by every call that returns. *)
Variable P : list (part * string) -> selector -> Prop.

Hypothesis P_step :
  forall history (r : loc) (s : selector) k v,
    P history s ->
    occurs k s = false ->
    Builder.everyInSample (partsOrder (processed k v (currentOf r s))) = true ->
    P (history ++ [(k, v)]) (processed k v (currentOf r s)).

Lemma chain_invariant (calls : list (part * string)) :
  forall history (h h' : heap) (r r' : loc) (s : selector),
    h !! r = Some (Selector s) ->
    P history s ->
    chain calls r h = (Return r', h') ->
    exists s', h' !! r' = Some (Selector s') /\ P (history ++ calls) s'.
Proof.
  induction calls as [|[k v] calls IH]; intros history h h' r r' s Hr HP Hc.
  - injection Hc as <- <-. exists s. now rewrite app_nil_r.
  - cbn [chain] in Hc. unfold bind in Hc.
    destruct (append k v r h) as [[r1|e] h1] eqn:Ha; [|discriminate].
    destruct (append_returns _ _ _ _ _ _ _ Hr Ha) as (Ho & He & Hr1 & _).
    destruct (IH (history ++ [(k, v)]) h1 h' r1 r' _ Hr1
                (P_step _ r _ _ _ HP Ho He) Hc) as (s' & Hs' & HP').
    exists s'. split; [exact Hs'|]. now rewrite <- app_assoc in HP'.
Qed.

End ChainInduction.

Section ChainFacts.

Lemma currentOf_output r (s : selector) :
  Js.truthy (Builder.stringifySel s) = true -> currentOf r s = s.
Proof. intros Hs. unfold currentOf. now rewrite Hs. Qed.

Lemma occurs_processed_new k v (s : selector) :
  singular k = true -> (k = PElement -> visible v = true) ->
  occurs k (processed k v s) = true
  /\ Js.truthy (Builder.stringifySel (processed k v s)) = true.
Proof.
  intros Hk Hv. unfold occurs. rewrite Hk, getProp_processed_same.
  destruct (decide (k = PElement)) as [-> | Hne].
  - split; [apply visible_truthy; auto | apply output_processed_element; auto].
  - split; [|now apply output_processed_sigil].
    apply visible_truthy. now apply visible_currentValue.
Qed.

Lemma singularsSet_step history (r : loc) (s : selector) k v :
  singularsSet history s ->
  occurs k s = false ->
  Builder.everyInSample (partsOrder (processed k v (currentOf r s))) = true ->
  singularsSet (history ++ [(k, v)]) (processed k v (currentOf r s)).
Proof.
  intros HJ Ho _ k0 v0 Hin Hs0 Hv0.
  apply in_app_or in Hin as [Hin | [[= <- <-] | []]].
  - destruct (HJ k0 v0 Hin Hs0 Hv0) as [Hk0 Hout].
    rewrite (currentOf_output _ _ Hout).
    split; [|now apply output_processed_mono].
    assert (k0 <> k) by (intros ->; congruence).
    unfold occurs in *. now rewrite getProp_processed_other.
  - now apply occurs_processed_new.
Qed.

Lemma partsRecorded_step history (r : loc) (s : selector) k v :
  partsRecorded history s ->
  occurs k s = false ->
  Builder.everyInSample (partsOrder (processed k v (currentOf r s))) = true ->
  partsRecorded (history ++ [(k, v)]) (processed k v (currentOf r s)).
Proof.
  intros HK Ho _ k0 Hin Hne. rewrite map_app in Hin.
  apply in_app_or in Hin as [Hin | [<- | []]].
  - destruct (HK k0 Hin Hne) as [Hpo Hout].
    rewrite (currentOf_output _ _ Hout), partsOrder_processed.
    split; [now apply in_pushPart_old | now apply output_processed_mono].
  - cbn [fst] in *. rewrite partsOrder_processed.
    split; [apply in_pushPart_new | now apply output_processed_sigil].
Qed.

Lemma untouched_step history (r : loc) (s : selector) k v :
  untouched history s ->
  occurs k s = false ->
  Builder.everyInSample (partsOrder (processed k v (currentOf r s))) = true ->
  untouched (history ++ [(k, v)]) (processed k v (currentOf r s)).
Proof.
  intros HU _ _ k0 Hnot. rewrite map_app, in_app_iff in Hnot. cbn in Hnot.
  assert (Hne : k0 <> k) by (intros ->; tauto).
  rewrite (getProp_processed_other _ _ _ _ Hne). unfold currentOf.
  destruct (Js.truthy (Builder.stringifySel s)); [|now destruct k0].
  apply HU. tauto.
Qed.

Lemma forallb_false_of {A} (f : A -> bool) (l : list A) (x : A) :
  In x l -> f x = false -> forallb f l = false.
Proof.
  intros Hin Hx. destruct (forallb f l) eqn:E; [|reflexivity].
  rewrite forallb_forall in E. rewrite (E x Hin) in Hx. discriminate.
Qed.

Lemma in_removelast_ne {A} (l : list A) (x y : A) :
  In x l -> last l = Some y -> x <> y -> In x (removelast l).
Proof.
  intros Hin Hl Hne. apply last_Some in Hl as [l' ->].
  rewrite removelast_last. apply in_app_or in Hin as [Hin | [<- | []]];
    [exact Hin | congruence].
Qed.

(** A part appended behind a recorded later part fails the order check. *)
Lemma everyInSample_behind (po : list part) k k' :
  In k' po -> (rank k < rank k')%nat ->
  Builder.everyInSample (pushPart po k) = false.
Proof.
  intros Hin Hlt. rewrite everyInSample_push.
  assert (Hf : bool_decide (rank k' < rank k)%nat = false)
    by (apply bool_decide_eq_false; lia).
  destruct (bool_decide (last po <> Some k)) eqn:Hl.
  - exact (forallb_false_of _ _ _ Hin Hf).
  - apply bool_decide_eq_false in Hl.
    assert (Hl' : last po = Some k)
      by (destruct (decide (last po = Some k)); tauto).
    refine (forallb_false_of _ _ k' _ Hf).
    apply (in_removelast_ne _ _ _ Hin Hl'). intros ->. lia.
Qed.

End ChainFacts.

(** * Calls in canonical order *)

Section CanonicalOrder.

Lemma str_app_empty (a b : string) : a +:+ b = "" -> a = "" /\ b = "".
Proof. destruct a; simpl; [now intros -> | discriminate]. Qed.

Lemma fragments_empty (s : selector) k :
  fragments s = "" -> Builder.getProp k s = "".
Proof.
  unfold fragments. intros H.
  repeat (apply str_app_empty in H as [? H]). now destruct k.
Qed.

Lemma ready_pristine (kinds : list part) (s : selector) :
  fragments s = "" -> ready kinds s.
Proof.
  intros Hf. split.
  - intros k _. unfold occurs. rewrite (fragments_empty _ _ Hf).
    apply andb_false_r.
  - rewrite stringifySel_fragments, Hf. discriminate.
Qed.

Lemma forallb_below_last (po : list part) (m k : part) :
  last po = Some m ->
  Builder.everyInSample po = true ->
  (rank m < rank k)%nat ->
  forallb (fun i => bool_decide (rank i < rank k)%nat) po = true.
Proof.
  intros Hl Ho Hlt. rewrite everyInSample_spec, Hl in Ho.
  apply last_Some in Hl as [l' ->]. rewrite removelast_last in Ho.
  rewrite forallb_app. cbn [forallb].
  rewrite (bool_decide_eq_true_2 _ Hlt), andb_true_r.
  rewrite forallb_forall in *. intros i Hi. specialize (Ho i Hi).
  apply bool_decide_eq_true in Ho. apply bool_decide_eq_true_2. lia.
Qed.

(** The order check passes for the next part of a canonical sequence. *)
Lemma everyInSample_next (po : list part) (k : part) :
  Builder.everyInSample po = true ->
  (forall m, last po = Some m -> (rank m <= rank k)%nat) ->
  Builder.everyInSample (pushPart po k) = true.
Proof.
  intros Ho Hm. rewrite everyInSample_push.
  destruct (bool_decide (last po <> Some k)) eqn:Hl.
  - apply bool_decide_eq_true in Hl.
    destruct (last po) as [m|] eqn:Hlast.
    + apply (forallb_below_last _ m); [exact Hlast | exact Ho |].
      specialize (Hm m eq_refl).
      destruct (decide (rank m = rank k)) as [E|E]; [|lia].
      apply rank_inj in E. congruence.
    + apply last_None in Hlast. now subst po.
  - apply bool_decide_eq_false in Hl.
    assert (Hl' : last po = Some k)
      by (destruct (decide (last po = Some k)); tauto).
    now rewrite everyInSample_spec, Hl' in Ho.
Qed.

Lemma ready_currentOf (rest : list part) (r : loc) (s : selector) :
  ready rest s ->
  (forall k, In k rest -> occurs k (currentOf r s) = false)
  /\ ordered rest (currentOf r s).
Proof.
  intros [Hocc Hord]. unfold currentOf.
  destruct (Js.truthy (Builder.stringifySel s)); [now split; auto|].
  split; [intros k _; now destruct k|].
  split; [reflexivity | discriminate].
Qed.

Lemma count_occ_twice (k : part) (rest : list part) :
  In k rest -> (2 <= count_occ part_eq_dec (k :: rest) k)%nat.
Proof.
  intros Hin. rewrite count_occ_cons_eq by reflexivity.
  apply (count_occ_In part_eq_dec) in Hin. lia.
Qed.

Lemma ready_processed (k : part) (rest : list part) (v : string)
  (s : selector) :
  StronglySorted (fun a b => (rank a <= rank b)%nat) (k :: rest) ->
  (forall k0, singular k0 = true ->
     (count_occ part_eq_dec (k :: rest) k0 <= 1)%nat) ->
  (forall k0, In k0 (k :: rest) -> occurs k0 s = false) ->
  ordered (k :: rest) s ->
  Builder.everyInSample (partsOrder (processed k v s)) = true
  /\ ready rest (processed k v s).
Proof.
  intros Hsorted Hcount Hocc [Ho Hm].
  apply StronglySorted_inv in Hsorted as [_ Hle].
  assert (Hcheck : Builder.everyInSample (partsOrder (processed k v s)) = true).
  { rewrite partsOrder_processed. apply everyInSample_next; [exact Ho|].
    intros m Hl. specialize (Hm m Hl). now inversion Hm. }
  split; [exact Hcheck|]. split.
  - intros k0 Hin. destruct (decide (k0 = k)) as [-> | Hne].
    + unfold occurs. destruct (singular k) eqn:Hs; [|reflexivity].
      pose proof (Hcount k Hs). pose proof (count_occ_twice k rest Hin). lia.
    + unfold occurs. rewrite (getProp_processed_other _ _ _ _ Hne).
      apply Hocc. now right.
  - intros _. split; [exact Hcheck|].
    intros m. rewrite partsOrder_processed, pushPart_last. now intros [= <-].
Qed.

Lemma count_occ_tail (k k0 : part) (rest : list part) :
  (count_occ part_eq_dec rest k0 <= count_occ part_eq_dec (k :: rest) k0)%nat.
Proof. cbn [count_occ]. destruct (part_eq_dec k k0); lia. Qed.

(** A chain of calls in canonical order returns. *)
Lemma chain_canonical (calls : list (part * string)) :
  forall (h : heap) (r : loc) (s : selector),
    h !! r = Some (Selector s) ->
    StronglySorted (fun a b => (rank a <= rank b)%nat) (map fst calls) ->
    (forall k, singular k = true ->
       (count_occ part_eq_dec (map fst calls) k <= 1)%nat) ->
    ready (map fst calls) s ->
    exists r' h' s',
      chain calls r h = (Return r', h') /\ h' !! r' = Some (Selector s').
Proof.
  induction calls as [|[k v] calls IH]; intros h r s Hr Hsorted Hcount Hready.
  - now exists r, h, s.
  - cbn [map fst] in *.
    destruct (ready_currentOf _ r _ Hready) as [Hocc Hord].
    destruct (ready_processed k _ v _ Hsorted Hcount Hocc Hord)
      as [Hcheck Hnext].
    assert (Ha : exists r1 h1,
               append k v r h = (Return r1, h1)
               /\ h1 !! r1 = Some (Selector (processed k v (currentOf r s)))).
    { rewrite (append_run _ _ _ _ _ Hr). unfold appendResult.
      rewrite (proj1 Hready k (or_introl eq_refl)).
      unfold currentOf in Hcheck |- *.
      pose proof (lookup_lt_Some _ _ _ Hr) as Hlt.
      destruct (Js.truthy (Builder.stringifySel s)); rewrite Hcheck.
      - eexists _, _. split; [reflexivity|]. now apply list_lookup_insert_eq.
      - eexists _, _. split; [reflexivity|]. apply lookup_snoc. }
    destruct Ha as (r1 & h1 & Ha & Hr1).
    apply StronglySorted_inv in Hsorted as [Hsorted' _].
    destruct (IH h1 r1 _ Hr1 Hsorted') as (r' & h' & s' & Hc & Hr').
    + intros k0 Hs. specialize (Hcount k0 Hs).
      pose proof (count_occ_tail k k0 (map fst calls)). lia.
    + exact Hnext.
    + exists r', h', s'. split; [|exact Hr'].
      cbn [chain]. unfold bind. now rewrite Ha.
Qed.

End CanonicalOrder.

(** * Two chains started on the builder *)

Section TwoChains.

Lemma template_quiet : Js.truthy (Builder.stringifySel Builder.template) = false.
Proof. reflexivity. Qed.

(** An appending call changes no object but its receiver. *)
Lemma append_frame (h : heap) (r l : loc) k v (o : obj) :
  h !! l = Some o -> l <> r -> snd (append k v r h) !! l = Some o.
Proof.
  intros Hl Hne. destruct (h !! r) as [[s|str]|] eqn:Hr.
  - rewrite (append_run _ _ _ _ _ Hr). unfold appendResult.
    destruct (occurs k s); [exact Hl|].
    destruct (Js.truthy _); cbn [snd].
    + rewrite list_lookup_insert_ne; [exact Hl | congruence].
    + now apply lookup_app_l_Some.
  - rewrite append_not_selector; [exact Hl | congruence].
  - rewrite append_not_selector; [exact Hl | congruence].
Qed.

Lemma apart_sym (a b : loc) (h : heap) : apart a b h -> apart b a h.
Proof.
  intros (H0 & Ha & Hb & Hab). repeat split; try assumption.
  intros ->. now rewrite Hab.
Qed.

(** A call of one chain keeps the two chains apart and changes neither the
    object the other chain is at nor the builder. *)
Lemma apart_step (a b : loc) (h : heap) k v :
  apart a b h ->
  apart (fst (next a (append k v a h))) b (snd (next a (append k v a h)))
  /\ snd (append k v a h) !! b = h !! b
  /\ snd (append k v a h) !! Builder.cssSelectorBuilder
     = h !! Builder.cssSelectorBuilder
  /\ snd (next a (append k v a h)) = snd (append k v a h).
Proof.
  intros (H0 & Ha & Hb & Hab).
  assert (Hsame : append k v a h = (Throw DuplicateSingularPart, h)
                  \/ append k v a h = (Throw TypeError, h) ->
                  apart (fst (next a (append k v a h))) b
                    (snd (next a (append k v a h)))
                  /\ snd (append k v a h) !! b = h !! b
                  /\ snd (append k v a h) !! Builder.cssSelectorBuilder
                     = h !! Builder.cssSelectorBuilder
                  /\ snd (next a (append k v a h)) = snd (append k v a h)).
  { intros [-> | ->]; cbn [next fst snd]; repeat split; assumption. }
  destruct (h !! a) as [[s|str]|] eqn:Hr.
  - rewrite (append_run _ _ _ _ _ Hr) in *. unfold appendResult in *.
    destruct (occurs k s); [apply Hsame; now left|].
    destruct (Js.truthy (Builder.stringifySel s)) eqn:Hout.
    + assert (Hne : a <> Builder.cssSelectorBuilder).
      { intros ->. rewrite H0 in Hr. injection Hr as <-.
        rewrite template_quiet in Hout. discriminate. }
      assert (Hba : a <> b) by (intros E; apply Hne, Hab, E).
      assert (Hn : next a (if Builder.everyInSample
                                (partsOrder (processed k v s))
                           then Return a else Throw OutOfOrderPart,
                           <[a := Selector (processed k v s)]> h)
                   = (a, <[a := Selector (processed k v s)]> h))
        by (now destruct (Builder.everyInSample _)).
      rewrite Hn. cbn [fst snd]. repeat split.
      * rewrite list_lookup_insert_ne by exact Hne. exact H0.
      * now rewrite length_insert.
      * now rewrite length_insert.
      * exact Hab.
      * now apply list_lookup_insert_ne.
      * now apply list_lookup_insert_ne.
    + rewrite everyInSample_blank. cbn [next fst snd].
      pose proof (lookup_lt_Some _ _ _ H0) as Hlt0.
      repeat split.
      * rewrite lookup_app_l by exact Hlt0. exact H0.
      * rewrite length_app. simpl. lia.
      * rewrite length_app. simpl. lia.
      * intros E. lia.
      * now apply lookup_app_l.
      * now apply lookup_app_l.
  - apply Hsame. right. apply append_not_selector. congruence.
  - apply Hsame. right. apply append_not_selector. congruence.
Qed.

Lemma stepChains_apart (a b : loc) (h : heap) (c : who * (part * string)) :
  apart a b h ->
  match stepChains (a, b, h) c with
  | (a', b', h') => apart a' b' h'
  end.
Proof.
  intros Hap. destruct c as [w [k v]]. cbn [stepChains].
  destruct w.
  - destruct (apart_step a b h k v Hap) as (H & _).
    now destruct (next a (append k v a h)).
  - destruct (apart_step b a h k v (apart_sym _ _ _ Hap)) as (H & _).
    destruct (next b (append k v b h)). now apply apart_sym.
Qed.

Lemma interleave_apart (sched : list (who * (part * string))) :
  forall (a b : loc) (h : heap),
    apart a b h ->
    match interleave sched (a, b, h) with
    | (a', b', h') => apart a' b' h'
    end.
Proof.
  induction sched as [|c sched IH]; intros a b h Hap; [exact Hap|].
  cbn [interleave fold_left].
  pose proof (stepChains_apart a b h c Hap) as Hstep.
  destruct (stepChains (a, b, h) c) as [[a1 b1] h1].
  now apply IH.
Qed.

Lemma apart_initial :
  apart Builder.cssSelectorBuilder Builder.cssSelectorBuilder
    Builder.initialHeap.
Proof.
  unfold apart, Builder.cssSelectorBuilder, Builder.initialHeap.
  split; [reflexivity|]. simpl. lia.
Qed.

End TwoChains.

(** * The two copies of [attr] *)

Section TwoCopies.

Lemma attrString_attrValue (s c : selector) (d : string) :
  attrStr s = attrStr c ->
  Js.toStr (Js.split Js.EQ d !! 0%nat) <> "__proto__" ->
  Inline.attrString s d = Builder.attrValue c d.
Proof.
  intros Ha Hk. unfold Inline.attrString, Builder.attrValue.
  now rewrite Ha, (bool_decide_eq_false_2 _ Hk).
Qed.

Lemma inline_tail (h : heap) (cur : loc) (c : selector) (d : string) :
  h !! cur = Some (Selector c) ->
  (let* c := getSel cur in
   run putSel cur (Builder.setProp PAttr (Builder.attrValue c d) c) then
   run Builder.addPartToOrder cur PAttr then
   run Builder.checkElemOrder cur then
   ret cur) h
  = (run Builder.processElement cur d PAttr then ret cur) h.
Proof.
  intros Hc. unfold Builder.processElement.
  unfold bind. unfold getSel. rewrite Hc. unfold putSel.
  cbn [Builder.currentValue].
  destruct (Builder.addPartToOrder cur PAttr _) as [[[]|e] h1];
    [|reflexivity].
  now destruct (Builder.checkElemOrder cur h1) as [[[]|e] h2].
Qed.

Lemma bind_ret {A B} (a : A) (k : A -> M B) (h : heap) :
  bind (ret a) k h = k a h.
Proof. reflexivity. Qed.

Lemma bind_alloc {B} (o : obj) (k : loc -> M B) (h : heap) :
  bind (alloc o) k h = k (length h) (h ++ [o]).
Proof. reflexivity. Qed.

Lemma currentObjOf_run (h : heap) (r : loc) (s : selector) :
  h !! r = Some (Selector s) ->
  Builder.currentObjOf r h
  = if Js.truthy (Builder.stringifySel s) then ret r h
    else alloc (Selector (blank r)) h.
Proof.
  intros Hr. unfold Builder.currentObjOf, bind.
  rewrite (stringify_sel _ _ _ Hr). now destruct (Js.truthy _).
Qed.

(** But for the key ['__proto__'], the two copies of [attr] do the same on
    every selector whose attributes are empty when it has no output, as on
    every selector the builder makes. *)
Lemma inline_attr_agrees (h : heap) (r : loc) (s : selector) (d : string) :
  h !! r = Some (Selector s) ->
  (Js.truthy (Builder.stringifySel s) = false -> attrStr s = "") ->
  Js.toStr (Js.split Js.EQ d !! 0%nat) <> "__proto__" ->
  Inline.attr r d h = Builder.attr r d h.
Proof.
  intros Hr Hq Hk.
  assert (HB : Builder.attr r d h
               = (let* currentObj := Builder.currentObjOf r in
                  run Builder.processElement currentObj d PAttr then
                  ret currentObj) h).
  { unfold Builder.attr. unfold bind at 1. unfold getSel. now rewrite Hr. }
  rewrite HB. clear HB.
  unfold bind at 1. rewrite (currentObjOf_run _ _ _ Hr).
  unfold Inline.attr. unfold bind at 1. unfold getSel at 1. rewrite Hr.
  unfold bind at 1. rewrite (stringify_sel _ _ _ Hr).
  destruct (Js.truthy (Builder.stringifySel s)) eqn:Hout; cbn [negb].
  - rewrite bind_ret. refine (eq_trans _ (inline_tail h r s d Hr)).
    unfold bind at 1 5. unfold getSel at 1 2. rewrite Hr.
    now rewrite (attrString_attrValue s s d eq_refl Hk).
  - unfold Inline.newObj. rewrite bind_alloc.
    refine (eq_trans _ (inline_tail _ _ (blank r) d (lookup_snoc h _))).
    unfold bind at 1 5. unfold getSel at 1 2. rewrite lookup_snoc.
    rewrite (attrString_attrValue s (blank r) d (Hq eq_refl) Hk).
    now rewrite (lookup_snoc h (Selector (blank r))).
Qed.

(** With the key ['__proto__'] the copy without [processElement] renders
    empty brackets. *)
Lemma inline_attr_proto :
  fst ((let* b := Inline.attr Builder.cssSelectorBuilder "__proto__" in
        Builder.stringify b) Builder.initialHeap) = Return "[]"
  /\ fst ((let* b := Builder.attr Builder.cssSelectorBuilder "__proto__" in
           Builder.stringify b) Builder.initialHeap)
     = Return "[__proto__=undefined]".
Proof. split; reflexivity. Qed.

End TwoCopies.

(** * The properties of the specification *)

(** C1, counterexample: the class name ['a\nb'] is stored as the fragment
    ['.a\nb'], and [stringify] returns ['.ab'], not the concatenation of
    the fragments: [replaceAll] removes the line feed of the name together
    with those of the template literal. *)
Lemma C1_counterexample :
  exists r h s,
    chain [(PClass, String "a" (String Js.LF "b"))]
      Builder.cssSelectorBuilder Builder.initialHeap = (Return r, h)
    /\ h !! r = Some (Selector s)
    /\ fragments s = String "." (String "a" (String Js.LF "b"))
    /\ Builder.stringify r h = (Return ".ab", h)
    /\ Builder.stringify r h <> (Return (fragments s), h).
Proof.
  eexists _, _, _. split; [reflexivity|]. split; [reflexivity|].
  split; [reflexivity|]. split; [reflexivity|]. discriminate.
Qed.

(** C1, amended: for every selector, [stringify] returns the concatenation
    of the six fragments in the canonical order element, id, classes,
    attributes, pseudo-classes, pseudo-element, without separators and with
    every line feed removed; when no fragment holds a line feed this is the
    concatenation itself.  A part never appended in a chain of calls on a
    reference without fragments has the empty string as fragment, as in
    the object of [buildNewObj].  [builder.id('main').class('container')
    .class('editable').stringify()] is ['#main.container.editable'], and
    [stringify] on the builder itself returns [''] without throwing. *)
Theorem C1_stringify_canonical_order (h : heap) (r : loc) (s : selector) :
  h !! r = Some (Selector s) ->
  Builder.stringify r h = (Return (Js.replaceAll Js.LF "" (fragments s)), h)
  /\ (hasChar Js.LF (fragments s) = false ->
      Builder.stringify r h = (Return (fragments s), h))
  /\ (forall this, fragments (blank this) = "")
  /\ (forall calls (h0 h' : heap) (r0 r' : loc) (s0 s' : selector) k,
        h0 !! r0 = Some (Selector s0) -> fragments s0 = "" ->
        chain calls r0 h0 = (Return r', h') ->
        h' !! r' = Some (Selector s') ->
        ~ In k (map fst calls) -> Builder.getProp k s' = "")
  /\ fst ((let* b := chain [(PId, "main"); (PClass, "container");
                           (PClass, "editable")] Builder.cssSelectorBuilder in
           Builder.stringify b) Builder.initialHeap)
     = Return "#main.container.editable"
  /\ Builder.stringify Builder.cssSelectorBuilder Builder.initialHeap
     = (Return "", Builder.initialHeap).
Proof.
  intros Hr. rewrite (stringify_sel _ _ _ Hr), stringifySel_fragments.
  split; [reflexivity|]. split.
  - intros Hn. now rewrite (replaceAll_absent _ _ _ Hn).
  - split; [reflexivity|]. split; [|split; reflexivity].
    intros calls h0 h' r0 r' s0 s' k H0 Hf Hc Hr' Hk.
    destruct (chain_invariant untouched untouched_step calls []
                h0 h' r0 r' s0 H0) as (s1 & Hs1 & HU);
      [intros k0 _; now apply fragments_empty | exact Hc |].
    rewrite Hr' in Hs1. injection Hs1 as <-. now apply HU.
Qed.

Lemma C1_witness :
  Builder.initialHeap !! Builder.cssSelectorBuilder
  = Some (Selector Builder.template)
  /\ Builder.stringify Builder.cssSelectorBuilder Builder.initialHeap
     = (Return (Js.replaceAll Js.LF "" (fragments Builder.template)),
        Builder.initialHeap).
Proof.
  split; [reflexivity|].
  apply (C1_stringify_canonical_order Builder.initialHeap
           Builder.cssSelectorBuilder Builder.template).
  reflexivity.
Defined.

(** C2: for operands [a] and [b] that serialize to [sa] and [sb] and any
    token (so for each of [' '], ['+'], ['~'], ['>']),
    [combine(a, token, b).stringify()] is [sa + ' ' + token + ' ' + sb],
    the operands serializing as before; with the space token this is [sa],
    three spaces, [sb]; and [combine(combine(a, t1, b), t2, c)] serializes
    to [sa + ' ' + t1 + ' ' + sb + ' ' + t2 + ' ' + sc], in particular for
    [t1 = '~'] and [t2 = '+']. *)
Theorem C2_combine_stringify (h : heap) (a b c : loc) (sa sb sc : string) :
  Builder.stringify a h = (Return sa, h) ->
  Builder.stringify b h = (Return sb, h) ->
  Builder.stringify c h = (Return sc, h) ->
  (forall token, exists n h',
      Builder.combine a token b h = (Return n, h')
      /\ Builder.stringify n h'
         = (Return (sa +:+ " " +:+ token +:+ " " +:+ sb), h')
      /\ Builder.stringify a h' = (Return sa, h')
      /\ Builder.stringify b h' = (Return sb, h'))
  /\ (exists h',
        (let* n := Builder.combine a " " b in Builder.stringify n) h
        = (Return (sa +:+ "   " +:+ sb), h'))
  /\ (forall t1 t2, exists h',
        (let* n1 := Builder.combine a t1 b in
         let* n2 := Builder.combine n1 t2 c in
         Builder.stringify n2) h
        = (Return (sa +:+ " " +:+ t1 +:+ " " +:+ sb +:+ " " +:+ t2 +:+ " "
                   +:+ sc), h'))
  /\ (exists h',
        (let* n1 := Builder.combine a "~" b in
         let* n2 := Builder.combine n1 "+" c in
         Builder.stringify n2) h
        = (Return (sa +:+ " ~ " +:+ sb +:+ " + " +:+ sc), h')).
Proof.
  intros Ha Hb Hc.
  assert (Hnested : forall t1 t2, exists h',
        (let* n1 := Builder.combine a t1 b in
         let* n2 := Builder.combine n1 t2 c in
         Builder.stringify n2) h
        = (Return (sa +:+ " " +:+ t1 +:+ " " +:+ sb +:+ " " +:+ t2 +:+ " "
                   +:+ sc), h')).
  { intros t1 t2. eexists. unfold bind at 1.
    rewrite (combine_run _ _ _ t1 _ _ Ha Hb). unfold bind.
    rewrite (combine_run _ _ _ t2 _ sc
               (stringify_node _ _ _ (lookup_snoc h _))
               (stringify_frame _ _ _ _ Hc)).
    rewrite (stringify_node _ _ _ (lookup_snoc _ _)).
    now rewrite !str_app_assoc. }
  split; [|split; [|split]].
  - intros token. eexists _, _.
    split; [exact (combine_run _ _ _ token _ _ Ha Hb)|].
    split; [exact (stringify_node _ _ _ (lookup_snoc h _))|].
    split; now apply stringify_frame.
  - eexists. unfold bind. rewrite (combine_run _ _ _ " " _ _ Ha Hb).
    exact (stringify_node _ _ _ (lookup_snoc h _)).
  - exact Hnested.
  - destruct (Hnested "~" "+") as [h' E]. exists h'. exact E.
Qed.

Lemma C2_witness :
  Builder.stringify 1%nat demoHeap = (Return "div", demoHeap)
  /\ Builder.stringify 2%nat demoHeap = (Return "p", demoHeap)
  /\ (forall token, exists n h',
        Builder.combine 1%nat token 2%nat demoHeap = (Return n, h')
        /\ Builder.stringify n h'
           = (Return ("div" +:+ " " +:+ token +:+ " " +:+ "p"), h')
        /\ Builder.stringify 1%nat h' = (Return "div", h')
        /\ Builder.stringify 2%nat h' = (Return "p", h')).
Proof.
  split; [reflexivity|]. split; [reflexivity|].
  exact (proj1 (C2_combine_stringify demoHeap 1%nat 2%nat 1%nat
                  "div" "p" "div" eq_refl eq_refl eq_refl)).
Defined.

(** C3, counterexample: [builder.element('table').element('div')] throws an
    error whose message says "more then one time", not "more than one
    time"; and [builder.element('').element('div')] throws
    nothing, the first call having left the element fragment empty. *)
Lemma C3_counterexample :
  (exists h,
     chain [(PElement, "table"); (PElement, "div")] Builder.cssSelectorBuilder
       Builder.initialHeap = (Throw (Error Builder.occurExeption), h))
  /\ Builder.occurExeption
     <> "Element, id and pseudo-element should not occur more than one time inside the selector"
  /\ (exists r h,
        chain [(PElement, ""); (PElement, "div")] Builder.cssSelectorBuilder
          Builder.initialHeap = (Return r, h)).
Proof.
  split; [eexists; reflexivity|]. split; [discriminate|].
  eexists _, _. reflexivity.
Qed.

(** C3, amended: [element], [id] or [pseudoElement] called on a selector
    whose fragment of that kind is not empty throws, the heap unchanged, an
    error whose message is exactly "Element, id and pseudo-element should
    not occur more then one time inside the selector".  So does a second
    call of the same singular part at the end of any chain of calls that
    returned, provided, for [element], that the first name holds a character
    other than a line feed. *)
Theorem C3_duplicate_singular_part (h : heap) (r : loc) (s : selector) k v :
  h !! r = Some (Selector s) ->
  singular k = true ->
  (Js.truthy (Builder.getProp k s) = true ->
   append k v r h
   = (Throw (Error "Element, id and pseudo-element should not occur more then one time inside the selector"), h))
  /\ (forall calls (r' : loc) (h' : heap) v0,
        chain calls r h = (Return r', h') ->
        In (k, v0) calls ->
        (k = PElement -> visible v0 = true) ->
        append k v r' h'
        = (Throw (Error "Element, id and pseudo-element should not occur more then one time inside the selector"), h')).
Proof.
  intros Hr Hk. split.
  - intros Ht. rewrite (append_run _ _ _ _ _ Hr). unfold appendResult, occurs.
    now rewrite Hk, Ht.
  - intros calls r' h' v0 Hc Hin Hv0.
    destruct (chain_invariant singularsSet singularsSet_step calls []
                h h' r r' s Hr) as (s' & Hr' & HJ); [easy | exact Hc |].
    destruct (HJ k v0 Hin Hk Hv0) as [Ho _].
    rewrite (append_run _ _ _ _ _ Hr'). unfold appendResult. now rewrite Ho.
Qed.

Lemma C3_witness :
  demoHeap !! 1%nat = Some (Selector divSel)
  /\ singular PElement = true
  /\ Js.truthy (Builder.getProp PElement divSel) = true
  /\ append PElement "p" 1%nat demoHeap
     = (Throw (Error "Element, id and pseudo-element should not occur more then one time inside the selector"), demoHeap).
Proof.
  split; [reflexivity|]. split; [reflexivity|]. split; [reflexivity|].
  exact (proj1 (C3_duplicate_singular_part demoHeap 1%nat divSel PElement "p"
                  eq_refl eq_refl) eq_refl).
Defined.

(** C4, counterexample: after [builder.element('div').class('x')], the call
    [element('p')] appends a part that ranks below the class already
    appended, yet the error thrown is the one of a repeated element, not
    the order error: the guard of [element] comes first. *)
Lemma C4_counterexample :
  exists r h,
    chain [(PElement, "div"); (PClass, "x")] Builder.cssSelectorBuilder
      Builder.initialHeap = (Return r, h)
    /\ (rank PElement < rank PClass)%nat
    /\ append PElement "p" r h = (Throw DuplicateSingularPart, h)
    /\ DuplicateSingularPart <> OutOfOrderPart.
Proof.
  eexists _, _. split; [reflexivity|]. split; [simpl; lia|].
  split; [reflexivity | discriminate].
Qed.

(** C4, amended: at the end of any chain of calls that returned, appending
    a part whose rank in element, id, class, attr, pseudo-class,
    pseudo-element is below that of a part the chain appended throws inside
    that call: the error of a repeated part when the part is singular and
    already set on the selector, and otherwise the error whose message is
    exactly "Selector parts should be arranged in the following order:
    element, id, class, attribute, pseudo-class, pseudo-element"; in
    particular [builder.class('x').element('div')] throws the latter. *)
Theorem C4_out_of_order_part (calls : list (part * string)) (h h' : heap)
  (r r' : loc) (s : selector) k k' v :
  h !! r = Some (Selector s) ->
  chain calls r h = (Return r', h') ->
  In k' (map fst calls) ->
  (rank k < rank k')%nat ->
  (exists s' h'',
     h' !! r' = Some (Selector s')
     /\ append k v r' h'
        = (Throw (if occurs k s' then DuplicateSingularPart
                  else Error "Selector parts should be arranged in the following order: element, id, class, attribute, pseudo-class, pseudo-element"),
           h''))
  /\ fst (chain [(PClass, "x"); (PElement, "div")] Builder.cssSelectorBuilder
            Builder.initialHeap)
     = Throw (Error "Selector parts should be arranged in the following order: element, id, class, attribute, pseudo-class, pseudo-element").
Proof.
  intros Hr Hc Hin Hlt. split; [|reflexivity].
  destruct (chain_invariant partsRecorded partsRecorded_step calls []
              h h' r r' s Hr) as (s' & Hr' & HK); [easy | exact Hc |].
  assert (Hne : k' <> PElement) by (intros ->; simpl in Hlt; lia).
  destruct (HK k' Hin Hne) as [Hpo Hout].
  exists s'. rewrite (append_run _ _ _ _ _ Hr'). unfold appendResult.
  destruct (occurs k s'); [now exists h'|].
  rewrite Hout, partsOrder_processed, (everyInSample_behind _ _ _ Hpo Hlt).
  eexists. split; [exact Hr' | reflexivity].
Qed.

Lemma C4_witness :
  Builder.initialHeap !! Builder.cssSelectorBuilder
  = Some (Selector Builder.template)
  /\ chain [(PClass, "x")] Builder.cssSelectorBuilder Builder.initialHeap
     = (Return 1%nat, classHeap)
  /\ In PClass (map fst [(PClass, "x")])
  /\ (rank PElement < rank PClass)%nat
  /\ exists s' h'',
       classHeap !! 1%nat = Some (Selector s')
       /\ append PElement "div" 1%nat classHeap
          = (Throw (if occurs PElement s' then DuplicateSingularPart
                    else Error "Selector parts should be arranged in the following order: element, id, class, attribute, pseudo-class, pseudo-element"),
             h'').
Proof.
  assert (Hlt : (rank PElement < rank PClass)%nat) by (simpl; lia).
  split; [reflexivity|]. split; [reflexivity|].
  split; [now left|]. split; [exact Hlt|].
  exact (proj1 (C4_out_of_order_part [(PClass, "x")] Builder.initialHeap
                  classHeap Builder.cssSelectorBuilder 1%nat Builder.template
                  PElement PClass "div" eq_refl eq_refl
                  (or_introl eq_refl) Hlt)).
Defined.

(** C5: on a reference without fragments, such as the builder, every chain
    of appending calls whose parts come in the order element, id, class,
    attr, pseudo-class, pseudo-element (repeats allowed) and hold no
    singular part twice returns from every call, and [stringify] on the
    result returns a string. *)
Theorem C5_canonical_order_never_throws (calls : list (part * string))
  (h : heap) (r : loc) (s : selector) :
  h !! r = Some (Selector s) ->
  fragments s = "" ->
  StronglySorted (fun a b => (rank a <= rank b)%nat) (map fst calls) ->
  (forall k, singular k = true ->
     (count_occ part_eq_dec (map fst calls) k <= 1)%nat) ->
  exists r' h' str,
    chain calls r h = (Return r', h')
    /\ Builder.stringify r' h' = (Return str, h').
Proof.
  intros Hr Hf Hsorted Hcount.
  destruct (chain_canonical calls h r s Hr Hsorted Hcount
              (ready_pristine _ _ Hf)) as (r' & h' & s' & Hc & Hr').
  exists r', h', (Builder.stringifySel s'). split; [exact Hc|].
  now apply stringify_sel.
Qed.

Lemma C5_witness :
  Builder.initialHeap !! Builder.cssSelectorBuilder
  = Some (Selector Builder.template)
  /\ fragments Builder.template = ""
  /\ exists r' h' str,
       chain [(PElement, "div"); (PId, "main"); (PClass, "a"); (PClass, "b");
              (PPseudoElement, "after")]
         Builder.cssSelectorBuilder Builder.initialHeap = (Return r', h')
       /\ Builder.stringify r' h' = (Return str, h').
Proof.
  split; [reflexivity|]. split; [reflexivity|].
  apply (C5_canonical_order_never_throws
           [(PElement, "div"); (PId, "main"); (PClass, "a"); (PClass, "b");
            (PPseudoElement, "after")]
           Builder.initialHeap Builder.cssSelectorBuilder Builder.template).
  - reflexivity.
  - reflexivity.
  - repeat constructor; simpl; lia.
  - intros k Hk. destruct k; try discriminate Hk; vm_compute; lia.
Defined.

(** C6: let two chains of appending calls start on the builder and run in
    any interleaving, [a] and [b] being the references they have reached.
    Then the builder is still the object literal it was; a further call of
    either chain changes neither the object the other chain is at, nor its
    [stringify], nor the builder, nor any object but the one the calling
    chain is at; and an appending call on the builder itself works on a new
    object, allocated with the fragments and the empty [partsOrder] of the
    builder and the builder as prototype. *)
Theorem C6_chains_stay_apart (sched : list (who * (part * string)))
  (a b : loc) (h : heap) :
  interleave sched
    (Builder.cssSelectorBuilder, Builder.cssSelectorBuilder,
     Builder.initialHeap) = (a, b, h) ->
  h !! Builder.cssSelectorBuilder = Some (Selector Builder.template)
  /\ (forall k v,
        snd (append k v a h) !! b = h !! b
        /\ snd (append k v a h) !! Builder.cssSelectorBuilder
           = h !! Builder.cssSelectorBuilder
        /\ fst (Builder.stringify b (snd (append k v a h)))
           = fst (Builder.stringify b h))
  /\ (forall k v,
        snd (append k v b h) !! a = h !! a
        /\ snd (append k v b h) !! Builder.cssSelectorBuilder
           = h !! Builder.cssSelectorBuilder
        /\ fst (Builder.stringify a (snd (append k v b h)))
           = fst (Builder.stringify a h))
  /\ (forall k v l o, h !! l = Some o ->
        (l <> a -> snd (append k v a h) !! l = Some o)
        /\ (l <> b -> snd (append k v b h) !! l = Some o))
  /\ (forall k v,
        append k v Builder.cssSelectorBuilder h
        = (Return (length h),
           h ++ [Selector (processed k v (blank Builder.cssSelectorBuilder))]))
  /\ fragments (blank Builder.cssSelectorBuilder) = fragments Builder.template
  /\ partsOrder (blank Builder.cssSelectorBuilder) = partsOrder Builder.template
  /\ proto (blank Builder.cssSelectorBuilder) = Some Builder.cssSelectorBuilder.
Proof.
  intros Hrun.
  pose proof (interleave_apart sched _ _ _ apart_initial) as Hap.
  rewrite Hrun in Hap.
  assert (Hframe : forall x y, apart x y h -> forall k v,
            snd (append k v x h) !! y = h !! y
            /\ snd (append k v x h) !! Builder.cssSelectorBuilder
               = h !! Builder.cssSelectorBuilder
            /\ fst (Builder.stringify y (snd (append k v x h)))
               = fst (Builder.stringify y h)).
  { intros x y Hxy k v.
    destruct (apart_step x y h k v Hxy) as (_ & Hy & H0 & _).
    split; [exact Hy|]. split; [exact H0|].
    unfold Builder.stringify. rewrite Hy.
    now destruct (h !! y) as [[?|?]|]. }
  destruct Hap as (H0 & Ha & Hb & Hab).
  split; [exact H0|].
  split; [apply Hframe; repeat split; assumption|].
  split; [apply Hframe, apart_sym; repeat split; assumption|].
  split; [intros k v l o Hl; split; intros Hne; now apply append_frame|].
  split; [|repeat split].
  intros k v. rewrite (append_run _ _ _ _ _ H0). unfold appendResult.
  replace (occurs k Builder.template) with false by (now destruct k).
  now rewrite template_quiet, everyInSample_blank.
Qed.

Lemma C6_witness :
  interleave [(ChainA, (PElement, "div")); (ChainB, (PId, "main"));
              (ChainA, (PClass, "x"))]
    (Builder.cssSelectorBuilder, Builder.cssSelectorBuilder,
     Builder.initialHeap)
  = (1%nat, 2%nat,
     [Selector Builder.template;
      Selector (mkSelector (Some 0%nat) "div" "" ".x" "" "" ""
                  [PElement; PClass]);
      Selector (mkSelector (Some 0%nat) "" "#main" "" "" "" "" [PId])])
  /\ [Selector Builder.template;
      Selector (mkSelector (Some 0%nat) "div" "" ".x" "" "" ""
                  [PElement; PClass]);
      Selector (mkSelector (Some 0%nat) "" "#main" "" "" "" "" [PId])]
       !! Builder.cssSelectorBuilder
     = Some (Selector Builder.template).
Proof.
  split; [reflexivity|].
  exact (proj1 (C6_chains_stay_apart
                  [(ChainA, (PElement, "div")); (ChainB, (PId, "main"));
                   (ChainA, (PClass, "x"))] 1%nat 2%nat _ eq_refl)).
Defined.

(** C7, counterexample: on the selector [.x], [element('div')] throws the
    order error, and afterwards the same selector serializes to ['div.x']
    and records [class, element]: [processElement] had written the
    fragment and the name before [checkElemOrder] threw. *)
Lemma C7_counterexample :
  exists r h h' s',
    chain [(PClass, "x")] Builder.cssSelectorBuilder Builder.initialHeap
    = (Return r, h)
    /\ Builder.stringify r h = (Return ".x", h)
    /\ append PElement "div" r h = (Throw OutOfOrderPart, h')
    /\ Builder.stringify r h' = (Return "div.x", h')
    /\ h' !! r = Some (Selector s')
    /\ partsOrder s' = [PClass; PElement].
Proof.
  eexists _, _, _, _. split; [reflexivity|]. repeat split.
Qed.

(** C7, amended: an appending call on a selector fails in one of two ways.
    When it throws the error of a repeated element, id or pseudo-element,
    the heap is as before the call.  When it throws the order error, the
    receiver had output and now holds the new fragment and the recorded
    part name (there is no rollback), every other object being as before;
    a later [stringify] of the receiver renders that state. *)
Theorem C7_failed_append_state (h h' : heap) (r : loc) (s : selector) k v e :
  h !! r = Some (Selector s) ->
  append k v r h = (Throw e, h') ->
  (e = DuplicateSingularPart /\ h' = h)
  \/ (e = OutOfOrderPart
      /\ h' = <[r := Selector (processed k v s)]> h
      /\ Builder.getProp k (processed k v s) = Builder.currentValue s v k
      /\ In k (partsOrder (processed k v s))
      /\ (forall l, l <> r -> h' !! l = h !! l)
      /\ Builder.stringify r h'
         = (Return (Builder.stringifySel (processed k v s)), h')).
Proof.
  intros Hr Ha. pose proof (lookup_lt_Some _ _ _ Hr) as Hlt.
  destruct (append_throws _ _ _ _ _ _ _ Hr Ha)
    as [(-> & _ & ->) | (-> & _ & _ & _ & ->)]; [now left | right].
  split; [reflexivity|]. split; [reflexivity|].
  split; [apply getProp_processed_same|].
  split; [rewrite partsOrder_processed; apply in_pushPart_new|]. split.
  - intros l Hl. now apply list_lookup_insert_ne.
  - apply stringify_sel. now apply list_lookup_insert_eq.
Qed.

Lemma C7_witness :
  classHeap !! 1%nat = Some (Selector dotX)
  /\ append PElement "div" 1%nat classHeap
     = (Throw OutOfOrderPart,
        [Selector Builder.template;
         Selector (mkSelector (Some 0%nat) "div" "" ".x" "" "" ""
                     [PClass; PElement])])
  /\ ((OutOfOrderPart = DuplicateSingularPart
       /\ [Selector Builder.template;
           Selector (mkSelector (Some 0%nat) "div" "" ".x" "" "" ""
                       [PClass; PElement])] = classHeap)
      \/ (OutOfOrderPart = OutOfOrderPart
          /\ [Selector Builder.template;
              Selector (mkSelector (Some 0%nat) "div" "" ".x" "" "" ""
                          [PClass; PElement])]
             = <[1%nat := Selector (processed PElement "div" dotX)]> classHeap
          /\ Builder.getProp PElement (processed PElement "div" dotX)
             = Builder.currentValue dotX "div" PElement
          /\ In PElement (partsOrder (processed PElement "div" dotX))
          /\ (forall l, l <> 1%nat ->
                [Selector Builder.template;
                 Selector (mkSelector (Some 0%nat) "div" "" ".x" "" "" ""
                             [PClass; PElement])] !! l = classHeap !! l)
          /\ Builder.stringify 1%nat
               [Selector Builder.template;
                Selector (mkSelector (Some 0%nat) "div" "" ".x" "" "" ""
                            [PClass; PElement])]
             = (Return (Builder.stringifySel (processed PElement "div" dotX)),
                [Selector Builder.template;
                 Selector (mkSelector (Some 0%nat) "div" "" ".x" "" "" ""
                             [PClass; PElement])]))).
Proof.
  split; [reflexivity|]. split; [reflexivity|].
  exact (C7_failed_append_state classHeap _ 1%nat dotX PElement "div" _
           eq_refl eq_refl).
Defined.

(** C8: [attr] does not split the descriptor on its first ['=']:
    [split('=')] cuts at every ['='] and the destructuring keeps the first
    two pieces.  For a key and a value without ['='], the call
    [attr('key=value=rest')] does, on every heap and every receiver, what
    [attr('key=value')] does.  On a selector without attributes it renders
    ['[key=value]'], which is not the ['[key=value=rest]'] of a split on
    the first ['=']; a descriptor with a single ['='] is rendered whole.
    [builder.element('a').attr('href=/p?x=1').stringify()] is
    ['a[href=/p?x]'], and [builder.attr('a=b=c').stringify()] is
    ['[a=b]']. *)
Theorem C8_attr_drops_after_second_equals (key value rest : string) :
  hasChar Js.EQ key = false ->
  hasChar Js.EQ value = false ->
  (forall (h : heap) (r : loc),
     Builder.attr r (key +:+ "=" +:+ value +:+ "=" +:+ rest) h
     = Builder.attr r (key +:+ "=" +:+ value) h)
  /\ (forall s, attrStr s = "" ->
        Builder.attrValue s (key +:+ "=" +:+ value +:+ "=" +:+ rest)
        = "[" +:+ key +:+ "=" +:+ value +:+ "]"
        /\ Builder.attrValue s (key +:+ "=" +:+ value +:+ "=" +:+ rest)
           <> "[" +:+ key +:+ "=" +:+ value +:+ "=" +:+ rest +:+ "]")
  /\ (forall s, attrStr s = "" ->
        Builder.attrValue s (key +:+ "=" +:+ value)
        = "[" +:+ key +:+ "=" +:+ value +:+ "]")
  /\ fst ((let* b := chain [(PElement, "a"); (PAttr, "href=/p?x=1")]
                      Builder.cssSelectorBuilder in
           Builder.stringify b) Builder.initialHeap)
     = Return "a[href=/p?x]"
  /\ fst ((let* b := Builder.attr Builder.cssSelectorBuilder "a=b=c" in
           Builder.stringify b) Builder.initialHeap)
     = Return "[a=b]".
Proof.
  intros Hk Hv.
  assert (Hval : forall s,
             Builder.attrValue s (key +:+ "=" +:+ value +:+ "=" +:+ rest)
             = Builder.attrValue s (key +:+ "=" +:+ value)).
  { intros s. unfold Builder.attrValue.
    change ("=" +:+ value +:+ "=" +:+ rest)
      with (String Js.EQ (value +:+ String Js.EQ rest)).
    change ("=" +:+ value) with (String Js.EQ value).
    rewrite !(split_first _ _ _ Hk), (split_first _ _ _ Hv),
      (split_absent _ _ Hv).
    reflexivity. }
  assert (Hone : forall s, attrStr s = "" ->
             Builder.attrValue s (key +:+ "=" +:+ value)
             = "[" +:+ key +:+ "=" +:+ value +:+ "]").
  { intros s Hs. rewrite (attrValue_pair _ _ _ Hk Hv), Hs.
    change (Js.sliceStr "" 1 (-1)) with "".
    cbv iota beta delta [Js.truthy]. reflexivity. }
  split; [|split; [|split; [|split]]].
  - intros h r.
    change (append PAttr (key +:+ "=" +:+ value +:+ "=" +:+ rest) r h
            = append PAttr (key +:+ "=" +:+ value) r h).
    assert (Hp : forall s0,
               processed PAttr (key +:+ "=" +:+ value +:+ "=" +:+ rest) s0
               = processed PAttr (key +:+ "=" +:+ value) s0).
    { intros s0. unfold processed. cbn [Builder.currentValue].
      now rewrite Hval. }
    destruct (h !! r) as [[s|str]|] eqn:Hr.
    + rewrite !(append_run _ _ _ _ _ Hr). unfold appendResult.
      now rewrite !Hp.
    + rewrite !append_not_selector; [reflexivity| |];
        intros s; rewrite Hr; discriminate.
    + rewrite !append_not_selector; [reflexivity| |];
        intros s; rewrite Hr; discriminate.
  - intros s Hs. rewrite Hval, (Hone s Hs). split; [reflexivity|].
    intros E. apply (f_equal String.length) in E.
    rewrite !str_length_app in E. simpl in E. lia.
  - exact Hone.
  - reflexivity.
  - reflexivity.
Qed.

Lemma C8_witness :
  hasChar Js.EQ "href" = false
  /\ hasChar Js.EQ "/p?x" = false
  /\ forall (h : heap) (r : loc),
       Builder.attr r ("href" +:+ "=" +:+ "/p?x" +:+ "=" +:+ "1") h
       = Builder.attr r ("href" +:+ "=" +:+ "/p?x") h.
Proof.
  split; [reflexivity|]. split; [reflexivity|].
  exact (proj1 (C8_attr_drops_after_second_equals "href" "/p?x" "1"
                  eq_refl eq_refl)).
Defined.

(** C9, counterexample: after [n = combine(a, '+', b)] with [a] the
    selector [div] and [b] the selector [p], the call [a.class('x')] makes
    [a.stringify()] return ['div.x'], while [n.stringify()] still returns
    ['div + p']: the node does not follow its operands. *)
Lemma C9_counterexample :
  exists h,
    (let* n := Builder.combine 1%nat "+" 2%nat in
     run Builder.class 1%nat "x" then
     ret n) demoHeap = (Return 3%nat, h)
    /\ Builder.stringify 3%nat h = (Return "div + p", h)
    /\ Builder.stringify 1%nat h = (Return "div.x", h)
    /\ Builder.stringify 2%nat h = (Return "p", h)
    /\ "div + p" <> "div.x" +:+ " " +:+ "+" +:+ " " +:+ "p".
Proof.
  eexists. split; [reflexivity|]. repeat split; discriminate.
Qed.

(** C9, amended: [combine] changes no object of the heap, its operands
    included: it only allocates the node.  The node holds the string
    [left.stringify() + ' ' + token + ' ' + right.stringify()] as the
    operands serialize when [combine] is called, and its [stringify]
    returns that same string after any later calls of appending methods and
    of [combine], whatever these do to the operands. *)
Theorem C9_combine_snapshot (h : heap) (a b : loc) (token sa sb : string) :
  Builder.stringify a h = (Return sa, h) ->
  Builder.stringify b h = (Return sb, h) ->
  let str := sa +:+ " " +:+ token +:+ " " +:+ sb in
  Builder.combine a token b h = (Return (length h), h ++ [Combined str])
  /\ (forall l o, h !! l = Some o -> (h ++ [Combined str]) !! l = Some o)
  /\ (forall later : list call,
        let h' := runCalls later (h ++ [Combined str]) in
        Builder.stringify (length h) h' = (Return str, h')).
Proof.
  intros Ha Hb str. split; [now apply combine_run|]. split.
  - intros l o Hl. now apply lookup_app_l_Some.
  - intros later h'. apply stringify_node.
    apply runCalls_keeps_node, lookup_snoc.
Qed.

Lemma C9_witness :
  Builder.stringify 1%nat demoHeap = (Return "div", demoHeap)
  /\ Builder.stringify 2%nat demoHeap = (Return "p", demoHeap)
  /\ Builder.combine 1%nat "+" 2%nat demoHeap
     = (Return 3%nat, demoHeap ++ [Combined "div + p"]).
Proof.
  split; [reflexivity|]. split; [reflexivity|].
  exact (proj1 (C9_combine_snapshot demoHeap 1%nat 2%nat "+" "div" "p"
                  eq_refl eq_refl)).
Defined.

(** * Further properties of the builder *)

Section OrderCheck.

Lemma forallb_Forall_rank (k : part) (l : list part) :
  forallb (fun i => bool_decide (rank i < rank k)%nat) l = true
  <-> Forall (fun i => (rank i < rank k)%nat) l.
Proof.
  rewrite forallb_forall, List.Forall_forall.
  split; intros H i Hi; specialize (H i Hi);
    [now apply bool_decide_eq_true in H | now apply bool_decide_eq_true_2].
Qed.

Lemma checkElemOrder_run (h : heap) (r : loc) (s : selector) :
  h !! r = Some (Selector s) ->
  Builder.checkElemOrder r h
  = (if Builder.everyInSample (partsOrder s) then Return tt
     else Throw OutOfOrderPart, h).
Proof.
  intros Hr. unfold Builder.checkElemOrder, bind, getSel. rewrite Hr.
  now destruct (Builder.everyInSample (partsOrder s)).
Qed.

Lemma sorted_snoc {A} (R : A -> A -> Prop) (l : list A) (x : A) :
  StronglySorted R l -> Forall (fun y => R y x) l ->
  StronglySorted R (l ++ [x]).
Proof.
  induction 1 as [|y l Hs IH Hy]; intros Hx; simpl.
  - repeat constructor.
  - inversion Hx as [|? ? Hyx Hlx]; subst. constructor; [now apply IH|].
    apply Forall_app. split; [exact Hy | now constructor].
Qed.

(** A push that passes the check keeps the recorded names increasing. *)
Lemma increasing_push (po : list part) (k : part) :
  StronglySorted (fun a b => (rank a < rank b)%nat) po ->
  Builder.everyInSample (pushPart po k) = true ->
  StronglySorted (fun a b => (rank a < rank b)%nat) (pushPart po k).
Proof.
  intros Hs Hc. rewrite everyInSample_push in Hc. unfold pushPart.
  destruct (bool_decide (last po <> Some k)); [|exact Hs].
  apply sorted_snoc; [exact Hs | now apply forallb_Forall_rank].
Qed.

Lemma increasing_step (history : list (part * string)) (r : loc)
  (s : selector) k v :
  increasing s ->
  occurs k s = false ->
  Builder.everyInSample (partsOrder (processed k v (currentOf r s))) = true ->
  increasing (processed k v (currentOf r s)).
Proof.
  unfold increasing. intros Hs _ Hc. rewrite partsOrder_processed in *.
  apply increasing_push; [|exact Hc]. unfold currentOf.
  destruct (Js.truthy _); [exact Hs | constructor].
Qed.

Lemma sorted_nat_length (l : list nat) :
  forall m n : nat,
    StronglySorted lt l -> Forall (fun x => (m <= x < n)%nat) l ->
    (length l <= n - m)%nat.
Proof.
  induction l as [|x l IH]; intros m n Hs Hb; simpl; [lia|].
  apply StronglySorted_inv in Hs as [Hs Hx].
  inversion Hb as [|? ? Hxb Hlb]; subst.
  assert (Hl : Forall (fun y => (S x <= y < n)%nat) l).
  { rewrite List.Forall_forall in *. intros y Hy.
    specialize (Hx y Hy). specialize (Hlb y Hy). lia. }
  specialize (IH (S x) n Hs Hl). lia.
Qed.

Lemma increasing_map_rank (po : list part) :
  StronglySorted (fun a b => (rank a < rank b)%nat) po ->
  StronglySorted lt (map rank po).
Proof.
  induction 1 as [|x l Hs IH Hx]; simpl; constructor; [exact IH|].
  rewrite List.Forall_forall in *. intros y Hy.
  apply in_map_iff in Hy as (p & <- & Hp). now apply Hx.
Qed.

Lemma increasing_length (po : list part) :
  StronglySorted (fun a b => (rank a < rank b)%nat) po ->
  (length po <= 6)%nat.
Proof.
  intros Hs. apply increasing_map_rank in Hs.
  rewrite <- (length_map rank).
  apply (sorted_nat_length _ 0%nat 6%nat Hs).
  rewrite List.Forall_forall. intros x Hx.
  apply in_map_iff in Hx as (p & <- & _). destruct p; simpl; lia.
Qed.

Lemma increasing_NoDup (po : list part) :
  StronglySorted (fun a b => (rank a < rank b)%nat) po -> List.NoDup po.
Proof.
  induction 1 as [|x l Hs IH Hx]; constructor; [|exact IH].
  intros Hin. rewrite List.Forall_forall in Hx. specialize (Hx x Hin). lia.
Qed.

End OrderCheck.

(** X1: [checkElemOrder] never changes the heap; it returns exactly when
    every recorded name but the last one ranks strictly below the last one
    in [correctOrder] (always, then, for an empty or a one-name
    [partsOrder]), and throws the order error otherwise. *)
Theorem X1_checkElemOrder_passes (h : heap) (r : loc) (s : selector) :
  h !! r = Some (Selector s) ->
  (Builder.checkElemOrder r h = (Return tt, h)
   \/ Builder.checkElemOrder r h = (Throw OutOfOrderPart, h))
  /\ (Builder.checkElemOrder r h = (Return tt, h)
      <-> forall k, last (partsOrder s) = Some k ->
            Forall (fun i => (rank i < rank k)%nat) (removelast (partsOrder s))).
Proof.
  intros Hr. rewrite (checkElemOrder_run _ _ _ Hr), everyInSample_spec.
  destruct (last (partsOrder s)) as [k|].
  - destruct (forallb _ _) eqn:E.
    + split; [now left|]. split; [|reflexivity].
      intros _ k' [= <-]. now apply forallb_Forall_rank.
    + split; [now right|]. split; [discriminate|].
      intros H. specialize (H k eq_refl).
      apply forallb_Forall_rank in H. congruence.
  - split; [now left|]. split; [discriminate | reflexivity].
Qed.

Lemma X1_witness :
  classHeap !! 1%nat = Some (Selector dotX)
  /\ (Builder.checkElemOrder 1%nat classHeap = (Return tt, classHeap)
      \/ Builder.checkElemOrder 1%nat classHeap
         = (Throw OutOfOrderPart, classHeap)).
Proof.
  split; [reflexivity|].
  exact (proj1 (X1_checkElemOrder_passes classHeap 1%nat dotX eq_refl)).
Defined.

(** X2: along a chain of appending calls that returned, started on a
    selector whose recorded names rank strictly increasingly (the builder,
    with none), the selector reached records names that rank strictly
    increasingly: [partsOrder] holds no name twice and at most six. *)
Theorem X2_partsOrder_increasing (calls : list (part * string))
  (h h' : heap) (r r' : loc) (s : selector) :
  h !! r = Some (Selector s) ->
  StronglySorted (fun a b => (rank a < rank b)%nat) (partsOrder s) ->
  chain calls r h = (Return r', h') ->
  exists s',
    h' !! r' = Some (Selector s')
    /\ StronglySorted (fun a b => (rank a < rank b)%nat) (partsOrder s')
    /\ List.NoDup (partsOrder s')
    /\ (length (partsOrder s') <= 6)%nat.
Proof.
  intros Hr Hs Hc.
  destruct (chain_invariant (fun _ => increasing) increasing_step calls []
              h h' r r' s Hr Hs Hc) as (s' & Hr' & Hs').
  exists s'. split; [exact Hr'|]. split; [exact Hs'|].
  split; [now apply increasing_NoDup | now apply increasing_length].
Qed.

Lemma X2_witness :
  Builder.initialHeap !! Builder.cssSelectorBuilder
  = Some (Selector Builder.template)
  /\ chain [(PClass, "x")] Builder.cssSelectorBuilder Builder.initialHeap
     = (Return 1%nat, classHeap)
  /\ exists s',
       classHeap !! 1%nat = Some (Selector s')
       /\ StronglySorted (fun a b => (rank a < rank b)%nat) (partsOrder s')
       /\ List.NoDup (partsOrder s')
       /\ (length (partsOrder s') <= 6)%nat.
Proof.
  split; [reflexivity|]. split; [reflexivity|].
  apply (X2_partsOrder_increasing [(PClass, "x")] Builder.initialHeap
           classHeap Builder.cssSelectorBuilder 1%nat Builder.template).
  - reflexivity.
  - constructor.
  - reflexivity.
Defined.

Section Quiet.

Lemma runCall_keeps_quiet (c : call) (h : heap) (l : loc) (s : selector) :
  h !! l = Some (Selector s) ->
  Js.truthy (Builder.stringifySel s) = false ->
  runCall c h !! l = Some (Selector s).
Proof.
  intros Hl Hq. destruct c as [k v r | a t b]; cbn [runCall].
  - destruct (decide (l = r)) as [-> | Hne]; [|now apply append_frame].
    rewrite (append_run _ _ _ _ _ Hl). unfold appendResult.
    destruct (occurs k s); [exact Hl|]. rewrite Hq. cbn [snd].
    now apply lookup_app_l_Some.
  - destruct (combine_heap h a b t) as [-> | [o ->]];
      [exact Hl | now apply lookup_app_l_Some].
Qed.

Lemma runCalls_keeps_quiet (cs : list call) :
  forall (h : heap) (l : loc) (s : selector),
    h !! l = Some (Selector s) ->
    Js.truthy (Builder.stringifySel s) = false ->
    runCalls cs h !! l = Some (Selector s).
Proof.
  induction cs as [|c cs IH]; intros h l s Hl Hq; [exact Hl|].
  cbn [runCalls fold_left]. apply IH; [|exact Hq].
  now apply runCall_keeps_quiet.
Qed.

End Quiet.

(** X3: an object whose [stringify] is [''] is never changed: after any
    sequence of appending and [combine] calls on any references, that
    object included, it is as it was, every call on it having worked on a
    new object.  In particular the builder stays the object literal,
    whatever its clients do. *)
Theorem X3_quiet_object_never_changes (later : list call) (h : heap)
  (l : loc) (s : selector) :
  h !! l = Some (Selector s) ->
  Builder.stringify l h = (Return "", h) ->
  runCalls later h !! l = Some (Selector s)
  /\ runCalls later Builder.initialHeap !! Builder.cssSelectorBuilder
     = Some (Selector Builder.template).
Proof.
  intros Hl Hs. rewrite (stringify_sel _ _ _ Hl) in Hs.
  injection Hs as Hs. split.
  - apply runCalls_keeps_quiet; [exact Hl | now rewrite Hs].
  - now apply runCalls_keeps_quiet.
Qed.

Lemma X3_witness :
  demoHeap !! 0%nat = Some (Selector Builder.template)
  /\ Builder.stringify 0%nat demoHeap = (Return "", demoHeap)
  /\ runCalls [CallAppend PClass "x" 0%nat; CallAppend PId "i" 1%nat;
               CallCombine 0%nat "+" 1%nat] demoHeap !! 0%nat
     = Some (Selector Builder.template).
Proof.
  split; [reflexivity|]. split; [reflexivity|].
  exact (proj1 (X3_quiet_object_never_changes
                  [CallAppend PClass "x" 0%nat; CallAppend PId "i" 1%nat;
                   CallCombine 0%nat "+" 1%nat]
                  demoHeap 0%nat Builder.template eq_refl eq_refl)).
Defined.

Section Accepted.

Lemma chain_app (l1 l2 : list (part * string)) :
  forall (r : loc) (h : heap),
    chain (l1 ++ l2) r h = (let* m := chain l1 r in chain l2 m) h.
Proof.
  induction l1 as [|[k v] l1 IH]; intros r h; [reflexivity|].
  cbn [app chain]. unfold bind at 1 2 3.
  destruct (append k v r h) as [[r1|e] h1]; [|reflexivity].
  rewrite IH. reflexivity.
Qed.

Lemma chain_split (l1 l2 : list (part * string)) (r r' : loc) (h h' : heap) :
  chain (l1 ++ l2) r h = (Return r', h') ->
  exists r1 h1,
    chain l1 r h = (Return r1, h1) /\ chain l2 r1 h1 = (Return r', h').
Proof.
  rewrite chain_app. unfold bind.
  destruct (chain l1 r h) as [[r1|e] h1]; [|discriminate].
  intros H. now exists r1, h1.
Qed.

Lemma chain_cons (k : part) (v : string) (l : list (part * string))
  (r r' : loc) (h h' : heap) :
  chain ((k, v) :: l) r h = (Return r', h') ->
  exists r1 h1,
    append k v r h = (Return r1, h1) /\ chain l r1 h1 = (Return r', h').
Proof.
  cbn [chain]. unfold bind.
  destruct (append k v r h) as [[r1|e] h1]; [|discriminate].
  intros H. now exists r1, h1.
Qed.

(** Behind a part that a returned chain appended, a lower part throws. *)
Lemma append_behind_throws (calls : list (part * string)) (h h' : heap)
  (r r' : loc) (s : selector) k k' v (r2 : loc) (h2 : heap) :
  h !! r = Some (Selector s) ->
  chain calls r h = (Return r', h') ->
  In k' (map fst calls) ->
  (rank k < rank k')%nat ->
  append k v r' h' <> (Return r2, h2).
Proof.
  intros Hr Hc Hin Hlt.
  destruct (chain_invariant partsRecorded partsRecorded_step calls []
              h h' r r' s Hr) as (s' & Hr' & HK); [easy | exact Hc |].
  assert (Hne : k' <> PElement) by (intros ->; simpl in Hlt; lia).
  destruct (HK k' Hin Hne) as [Hpo Hout].
  rewrite (append_run _ _ _ _ _ Hr'). unfold appendResult.
  destruct (occurs k s'); [discriminate|].
  rewrite Hout, partsOrder_processed, (everyInSample_behind _ _ _ Hpo Hlt).
  discriminate.
Qed.

(** A singular part that a returned chain appended throws when repeated. *)
Lemma append_again_throws (calls : list (part * string)) (h h' : heap)
  (r r' : loc) (s : selector) k v0 v (r2 : loc) (h2 : heap) :
  h !! r = Some (Selector s) ->
  chain calls r h = (Return r', h') ->
  In (k, v0) calls ->
  singular k = true ->
  (k = PElement -> visible v0 = true) ->
  append k v r' h' <> (Return r2, h2).
Proof.
  intros Hr Hc Hin Hk Hv.
  destruct (chain_invariant singularsSet singularsSet_step calls []
              h h' r r' s Hr) as (s' & Hr' & HJ); [easy | exact Hc |].
  destruct (HJ k v0 Hin Hk Hv) as [Ho _].
  rewrite (append_run _ _ _ _ _ Hr'). unfold appendResult. rewrite Ho.
  discriminate.
Qed.

(** The parts of a chain that returned come in canonical order, and no
    singular part comes twice (for [element]: with visible names). *)
Lemma chain_returns_canonical (calls : list (part * string)) :
  forall (h h' : heap) (r r' : loc) (s : selector),
    h !! r = Some (Selector s) ->
    (forall v, In (PElement, v) calls -> visible v = true) ->
    chain calls r h = (Return r', h') ->
    StronglySorted (fun a b => (rank a <= rank b)%nat) (map fst calls)
    /\ (forall k, singular k = true ->
          (count_occ part_eq_dec (map fst calls) k <= 1)%nat).
Proof.
  induction calls as [|[k v] calls IH]; intros h h' r r' s Hr Hvis Hc.
  - split; [constructor | intros; simpl; lia].
  - destruct (chain_cons _ _ _ _ _ _ _ Hc) as (r1 & h1 & Ha & Hc1).
    destruct (append_returns _ _ _ _ _ _ _ Hr Ha) as (_ & _ & Hr1 & _).
    destruct (IH h1 h' r1 r' _ Hr1) as [Hsorted Hcount];
      [intros v0 Hv0; apply Hvis; now right | exact Hc1 |].
    assert (Hlater : forall k2 v2, In (k2, v2) calls ->
              exists pre post r2 h2 r3 h3,
                calls = pre ++ (k2, v2) :: post
                /\ chain ((k, v) :: pre) r h = (Return r2, h2)
                /\ append k2 v2 r2 h2 = (Return r3, h3)).
    { intros k2 v2 Hin. apply in_split in Hin as (pre & post & ->).
      change ((k, v) :: pre ++ (k2, v2) :: post)
        with (((k, v) :: pre) ++ (k2, v2) :: post) in Hc.
      destruct (chain_split _ _ _ _ _ _ Hc) as (r2 & h2 & Hpre & Hpost).
      destruct (chain_cons _ _ _ _ _ _ _ Hpost) as (r3 & h3 & Ha2 & _).
      now exists pre, post, r2, h2, r3, h3. }
    split.
    + cbn [map fst]. constructor; [exact Hsorted|].
      rewrite List.Forall_forall. intros k2 Hk2.
      apply in_map_iff in Hk2 as ([k2' v2] & <- & Hin). cbn [fst].
      destruct (Hlater k2' v2 Hin)
        as (pre & post & r2 & h2 & r3 & h3 & _ & Hpre & Ha2).
      destruct (le_lt_dec (rank k) (rank k2')) as [Hle | Hlt]; [exact Hle|].
      exfalso.
      apply (append_behind_throws ((k, v) :: pre) h h2 r r2 s k2' k v2 r3 h3
               Hr Hpre (or_introl eq_refl) Hlt Ha2).
    + intros k0 Hs0. cbn [map fst count_occ].
      destruct (part_eq_dec k k0) as [-> | Hne]; [|now apply Hcount].
      rewrite (proj1 (count_occ_not_In part_eq_dec _ _)); [lia|].
      intros Hin. apply in_map_iff in Hin as ([k2 v2] & E & Hin).
      cbn [fst] in E. subst k2.
      destruct (Hlater k0 v2 Hin)
        as (pre & post & r2 & h2 & r3 & h3 & _ & Hpre & Ha2).
      apply (append_again_throws ((k0, v) :: pre) h h2 r r2 s k0 v v2 r3 h3
               Hr Hpre (or_introl eq_refl) Hs0); [|exact Ha2].
      intros ->. apply Hvis. now left.
Qed.

End Accepted.

(** X4: on a reference without fragments, such as the builder, a chain of
    appending calls whose element names are visible (hold a character
    other than a line feed) returns from every call if and only if its
    parts come in the order element, id, class, attr, pseudo-class,
    pseudo-element, repeats allowed, with none of element, id and
    pseudo-element twice: the builder accepts exactly those chains. *)
Theorem X4_accepted_chains (calls : list (part * string)) (h : heap)
  (r : loc) (s : selector) :
  h !! r = Some (Selector s) ->
  fragments s = "" ->
  (forall v, In (PElement, v) calls -> visible v = true) ->
  (exists r' h', chain calls r h = (Return r', h'))
  <-> (StronglySorted (fun a b => (rank a <= rank b)%nat) (map fst calls)
       /\ forall k, singular k = true ->
            (count_occ part_eq_dec (map fst calls) k <= 1)%nat).
Proof.
  intros Hr Hf Hvis. split.
  - intros (r' & h' & Hc).
    exact (chain_returns_canonical calls h h' r r' s Hr Hvis Hc).
  - intros [Hsorted Hcount].
    destruct (chain_canonical calls h r s Hr Hsorted Hcount
                (ready_pristine _ _ Hf)) as (r' & h' & _ & Hc & _).
    now exists r', h'.
Qed.

Lemma X4_witness :
  Builder.initialHeap !! Builder.cssSelectorBuilder
  = Some (Selector Builder.template)
  /\ fragments Builder.template = ""
  /\ ((exists r' h',
         chain [(PId, "main"); (PElement, "div")] Builder.cssSelectorBuilder
           Builder.initialHeap = (Return r', h'))
      <-> (StronglySorted (fun a b => (rank a <= rank b)%nat)
             (map fst [(PId, "main"); (PElement, "div")])
           /\ forall k, singular k = true ->
                (count_occ part_eq_dec
                   (map fst [(PId, "main"); (PElement, "div")]) k <= 1)%nat)).
Proof.
  split; [reflexivity|]. split; [reflexivity|].
  apply (X4_accepted_chains [(PId, "main"); (PElement, "div")]
           Builder.initialHeap Builder.cssSelectorBuilder Builder.template).
  - reflexivity.
  - reflexivity.
  - intros v [E | [E | []]]; [discriminate E|].
    injection E as <-. reflexivity.
Defined.

Section Rendered.

Lemma str_app_empty_r (a : string) : a +:+ "" = a.
Proof. induction a as [|x a IH]; simpl; [reflexivity | now rewrite IH]. Qed.

Lemma pieces_app (l1 l2 : list (part * string)) :
  pieces (l1 ++ l2) = pieces l1 +:+ pieces l2.
Proof.
  induction l1 as [|c l1 IH]; simpl; [reflexivity|].
  now rewrite IH, str_app_assoc.
Qed.

(** A push that passes the check has no recorded name above the new one. *)
Lemma checked_push_below (po : list part) (k p : part) :
  Builder.everyInSample (pushPart po k) = true ->
  In p po -> (rank p <= rank k)%nat.
Proof.
  rewrite everyInSample_push. intros Hc Hin.
  destruct (bool_decide (last po <> Some k)) eqn:Hl.
  - apply forallb_Forall_rank in Hc. rewrite List.Forall_forall in Hc.
    specialize (Hc p Hin). lia.
  - apply bool_decide_eq_false in Hl.
    assert (Hl' : last po = Some k)
      by (destruct (decide (last po = Some k)); tauto).
    destruct (decide (p = k)) as [-> | Hne]; [lia|].
    apply forallb_Forall_rank in Hc. rewrite List.Forall_forall in Hc.
    specialize (Hc p (in_removelast_ne _ _ _ Hin Hl' Hne)). lia.
Qed.

Lemma emptyAbove_currentOf (r : loc) (s : selector) :
  emptyAbove s -> emptyAbove (currentOf r s).
Proof.
  intros He. unfold currentOf.
  destruct (Js.truthy _); [exact He | intros k _; now destruct k].
Qed.

Lemma emptyAbove_processed k v (s : selector) :
  emptyAbove s -> emptyAbove (processed k v s).
Proof.
  intros He k2 Hk2. rewrite partsOrder_processed in Hk2.
  assert (Hne : k2 <> k).
  { intros ->. specialize (Hk2 k (in_pushPart_new _ _)). lia. }
  rewrite (getProp_processed_other _ _ _ _ Hne). apply He.
  intros p Hp. apply Hk2. now apply in_pushPart_old.
Qed.

(** An accepted call other than [attr] adds its piece at the end of the
    concatenated fragments. *)
Lemma fragments_processed k v (s : selector) :
  k <> PAttr ->
  occurs k s = false ->
  emptyAbove s ->
  (forall p, In p (partsOrder s) -> (rank p <= rank k)%nat) ->
  fragments (processed k v s) = fragments s +:+ piece (k, v).
Proof.
  intros Hk Ho He Hb.
  assert (Hup : forall k2, (rank k < rank k2)%nat -> Builder.getProp k2 s = "").
  { intros k2 Hlt. apply He. intros p Hp. specialize (Hb p Hp). lia. }
  unfold occurs in Ho. unfold fragments, processed, piece. cbn [fst snd].
  destruct k; try congruence;
    cbn [singular andb Builder.getProp] in Ho;
    try (apply truthy_false in Ho);
    cbn [Builder.setProp Builder.currentValue Builder.setPartsOrder
         elementStr idStr classesStr attrStr pseudoClassesStr
         pseudoElementStr].
  - pose proof (Hup PId ltac:(simpl; lia)) as H1.
    pose proof (Hup PClass ltac:(simpl; lia)) as H2.
    pose proof (Hup PAttr ltac:(simpl; lia)) as H3.
    pose proof (Hup PPseudoClass ltac:(simpl; lia)) as H4.
    pose proof (Hup PPseudoElement ltac:(simpl; lia)) as H5.
    cbn [Builder.getProp] in *. rewrite Ho, H1, H2, H3, H4, H5.
    simpl. now rewrite !str_app_empty_r.
  - pose proof (Hup PClass ltac:(simpl; lia)) as H2.
    pose proof (Hup PAttr ltac:(simpl; lia)) as H3.
    pose proof (Hup PPseudoClass ltac:(simpl; lia)) as H4.
    pose proof (Hup PPseudoElement ltac:(simpl; lia)) as H5.
    cbn [Builder.getProp] in *. rewrite Ho, H2, H3, H4, H5.
    simpl. now rewrite !str_app_empty_r.
  - pose proof (Hup PAttr ltac:(simpl; lia)) as H3.
    pose proof (Hup PPseudoClass ltac:(simpl; lia)) as H4.
    pose proof (Hup PPseudoElement ltac:(simpl; lia)) as H5.
    cbn [Builder.getProp] in *. rewrite H3, H4, H5.
    simpl. now rewrite !str_app_empty_r, !str_app_assoc.
  - pose proof (Hup PPseudoElement ltac:(simpl; lia)) as H5.
    cbn [Builder.getProp] in *. rewrite H5.
    simpl. now rewrite !str_app_empty_r, !str_app_assoc.
  - rewrite Ho. simpl. now rewrite !str_app_assoc.
Qed.

Lemma occurs_currentOf k (r : loc) (s : selector) :
  occurs k s = false -> occurs k (currentOf r s) = false.
Proof.
  intros Ho. unfold currentOf. destruct (Js.truthy _); [exact Ho|].
  now destruct k.
Qed.

Lemma rendersHistory_step history (r : loc) (s : selector) k v :
  rendersHistory history s ->
  occurs k s = false ->
  Builder.everyInSample (partsOrder (processed k v (currentOf r s))) = true ->
  rendersHistory (history ++ [(k, v)]) (processed k v (currentOf r s)).
Proof.
  intros [He Hout] Ho Hc. split.
  - now apply emptyAbove_processed, emptyAbove_currentOf.
  - intros Hno. rewrite map_app, in_app_iff in Hno. cbn in Hno.
    assert (Hk : k <> PAttr) by (intros ->; tauto).
    assert (Hh : ~ In PAttr (map fst history)) by tauto.
    specialize (Hout Hh).
    rewrite partsOrder_processed in Hc.
    rewrite stringifySel_fragments,
      (fragments_processed k v _ Hk (occurs_currentOf _ r _ Ho)
         (emptyAbove_currentOf r _ He)
         (fun p => checked_push_below _ _ p Hc)).
    rewrite pieces_app, !replaceAll_app. cbn [pieces].
    rewrite str_app_empty_r, <- stringifySel_fragments. f_equal.
    unfold currentOf.
    destruct (Js.truthy (Builder.stringifySel s)) eqn:Hq; [exact Hout|].
    apply truthy_false in Hq. now rewrite <- Hout, Hq.
Qed.

End Rendered.

(** X5: for a chain of appending calls without [attr] that returned,
    started on a reference without fragments such as the builder,
    [stringify] of the result is the text of the calls in the order they
    were made: each name after the sigil of its part (none for an element,
    [#], [.], [:], [::]), with the line feeds removed and nothing between
    the pieces. *)
Theorem X5_stringify_is_call_text (calls : list (part * string))
  (h h' : heap) (r r' : loc) (s : selector) :
  h !! r = Some (Selector s) ->
  fragments s = "" ->
  ~ In PAttr (map fst calls) ->
  chain calls r h = (Return r', h') ->
  Builder.stringify r' h' = (Return (Js.replaceAll Js.LF "" (pieces calls)), h')
  /\ (hasChar Js.LF (pieces calls) = false ->
      Builder.stringify r' h' = (Return (pieces calls), h')).
Proof.
  intros Hr Hf Hno Hc.
  assert (H0 : rendersHistory [] s).
  { split.
    - intros k _. now apply fragments_empty.
    - intros _. now rewrite stringifySel_fragments, Hf. }
  destruct (chain_invariant rendersHistory rendersHistory_step calls []
              h h' r r' s Hr H0 Hc) as (s' & Hr' & _ & Hout).
  rewrite (stringify_sel _ _ _ Hr'), (Hout Hno).
  split; [reflexivity|]. intros Hn. now rewrite (replaceAll_absent _ _ _ Hn).
Qed.

Lemma X5_witness :
  Builder.initialHeap !! Builder.cssSelectorBuilder
  = Some (Selector Builder.template)
  /\ fragments Builder.template = ""
  /\ ~ In PAttr (map fst [(PElement, "div"); (PClass, "a"); (PClass, "b")])
  /\ exists r' h',
       chain [(PElement, "div"); (PClass, "a"); (PClass, "b")]
         Builder.cssSelectorBuilder Builder.initialHeap = (Return r', h')
       /\ Builder.stringify r' h' = (Return "div.a.b", h').
Proof.
  assert (Hno : ~ In PAttr
                  (map fst [(PElement, "div"); (PClass, "a"); (PClass, "b")])).
  { simpl. intros [E | [E | [E | []]]]; discriminate E. }
  split; [reflexivity|]. split; [reflexivity|]. split; [exact Hno|].
  eexists _, _. split; [reflexivity|].
  exact (proj1 (X5_stringify_is_call_text
                  [(PElement, "div"); (PClass, "a"); (PClass, "b")]
                  Builder.initialHeap _ Builder.cssSelectorBuilder _
                  Builder.template eq_refl eq_refl Hno eq_refl)).
Defined.

Section WholeChains.

Lemma str_app_cancel_r (a b c : string) : a +:+ c = b +:+ c -> a = b.
Proof.
  intros H.
  assert (Hl : String.length a = String.length b).
  { apply (f_equal String.length) in H. rewrite !str_length_app in H. lia. }
  revert b H Hl. induction a as [|x a IH]; intros [|y b] H Hl;
    simpl in *; try discriminate Hl; [reflexivity|].
  injection H as -> H. f_equal. apply IH; [exact H | lia].
Qed.

Lemma filter_snoc {A} (f : A -> bool) (l : list A) (c : A) :
  List.filter f (l ++ [c]) = List.filter f l ++ (if f c then [c] else []).
Proof. rewrite List.filter_app. simpl. now destruct (f c). Qed.

Lemma filter_none {A} (f : A -> bool) (l : list A) :
  (forall x, In x l -> f x = false) -> List.filter f l = [].
Proof.
  induction l as [|x l IH]; intros H; simpl; [reflexivity|].
  rewrite (H x (or_introl eq_refl)). apply IH. intros y Hy. apply H. now right.
Qed.

Lemma attrValue_text (s : selector) (d : string) :
  Builder.attrValue s d
  = if Js.truthy (Js.sliceStr (attrStr s) 1 (-1))
    then "[" +:+ Js.sliceStr (attrStr s) 1 (-1) +:+ " " +:+ attrText d +:+ "]"
    else "[" +:+ attrText d +:+ "]".
Proof. reflexivity. Qed.

Lemma attrText_nonempty (d : string) : attrText d <> "".
Proof.
  unfold attrText. destruct (Js.toStr (Js.split Js.EQ d !! 0%nat));
    simpl; discriminate.
Qed.

Lemma attrTexts_nonempty (calls : list (part * string)) :
  List.Forall (fun x => x <> "") (attrTexts calls).
Proof.
  unfold attrTexts.
  induction (List.filter _ calls) as [|c l IH]; simpl; constructor;
    [apply attrText_nonempty | exact IH].
Qed.

Lemma join_nonempty (x : string) (l : list string) :
  x <> "" -> Js.join " " (x :: l) <> "".
Proof.
  intros Hx. destruct x as [|a x]; [congruence|].
  destruct l; simpl; discriminate.
Qed.

Lemma join_snoc (l : list string) (y : string) :
  l <> [] -> Js.join " " (l ++ [y]) = Js.join " " l +:+ " " +:+ y.
Proof.
  induction l as [|x l IH]; [congruence|]. intros _.
  destruct l as [|x' l]; [reflexivity|].
  change (Js.join " " ((x :: x' :: l) ++ [y]))
    with (x +:+ " " +:+ Js.join " " ((x' :: l) ++ [y])).
  rewrite IH by discriminate.
  change (Js.join " " (x :: x' :: l))
    with (x +:+ " " +:+ Js.join " " (x' :: l)).
  now rewrite !str_app_assoc.
Qed.

(** One more attribute goes inside the brackets, after a space. *)
Lemma bracket_snoc (s : selector) (texts : list string) (d : string) :
  List.Forall (fun x => x <> "") texts ->
  attrStr s = bracket texts ->
  Builder.attrValue s d = bracket (texts ++ [attrText d]).
Proof.
  intros Hl Ha. rewrite attrValue_text, Ha. destruct texts as [|x l].
  - reflexivity.
  - cbn [bracket]. rewrite sliceStr_brackets.
    inversion Hl as [|? ? Hx _]; subst.
    rewrite (proj2 (truthy_true _) (join_nonempty x l Hx)).
    change (bracket ((x :: l) ++ [attrText d]))
      with ("[" +:+ Js.join " " ((x :: l) ++ [attrText d]) +:+ "]").
    rewrite join_snoc by discriminate. now rewrite !str_app_assoc.
Qed.

Lemma fragments_zones (s : selector) :
  fragments s = lowStr s +:+ attrStr s +:+ highStr s.
Proof. unfold fragments, lowStr, highStr. now rewrite !str_app_assoc. Qed.

Lemma highStr_empty (s : selector) :
  emptyAbove s ->
  (forall p, In p (partsOrder s) -> (rank p <= 3)%nat) ->
  highStr s = "".
Proof.
  intros He Hb. unfold highStr.
  pose proof (He PPseudoClass) as H4. pose proof (He PPseudoElement) as H5.
  cbn [Builder.getProp] in H4, H5.
  rewrite H4, H5; [reflexivity | |];
    intros p Hp; specialize (Hb p Hp); simpl; lia.
Qed.

Lemma rendersAll_step history (r : loc) (s : selector) k v :
  rendersAll history s ->
  occurs k s = false ->
  Builder.everyInSample (partsOrder (processed k v (currentOf r s))) = true ->
  rendersAll (history ++ [(k, v)]) (processed k v (currentOf r s)).
Proof.
  intros (He & HR & Hout & Hattr) Ho Hc.
  pose proof (partsRecorded_step _ r _ _ v HR Ho Hc) as HR'.
  pose proof (emptyAbove_currentOf r _ He) as He0.
  pose proof (occurs_currentOf _ r _ Ho) as Ho0.
  rewrite partsOrder_processed in Hc.
  pose proof (fun p => checked_push_below _ _ p Hc) as Hb.
  assert (Hhist : forall c, In c history -> (rank (fst c) <= rank k)%nat).
  { intros [k' v'] Hin. cbn [fst].
    destruct (decide (k' = PElement)) as [-> | Hne]; [simpl; lia|].
    destruct (HR k' (in_map fst _ _ Hin) Hne) as [Hpo Hq].
    apply Hb. now rewrite (currentOf_output _ _ Hq). }
  assert (Hout0 : Builder.stringifySel (currentOf r s)
                  = Js.replaceAll Js.LF "" (rendering history)).
  { unfold currentOf.
    destruct (Js.truthy (Builder.stringifySel s)) eqn:Hq; [exact Hout|].
    apply truthy_false in Hq. now rewrite <- Hout, Hq. }
  assert (Hattr0 : attrStr (currentOf r s) = bracket (attrTexts history)).
  { unfold currentOf.
    destruct (Js.truthy (Builder.stringifySel s)) eqn:Hq; [exact Hattr|].
    unfold attrTexts. rewrite filter_none; [reflexivity|].
    intros [k' v'] Hin. cbn [fst]. apply Nat.eqb_neq. intros E.
    assert (k' = PAttr) as -> by (destruct k'; simpl in E; congruence).
    destruct (HR PAttr (in_map fst _ _ Hin)) as [_ Hq']; congruence. }
  split; [now apply emptyAbove_processed|]. split; [exact HR'|].
  destruct (decide (k = PAttr)) as [-> | Hk].
  - assert (Hhigh : highCalls history = []).
    { apply filter_none. intros c Hin. specialize (Hhist c Hin).
      simpl in Hhist. apply Nat.ltb_ge. lia. }
    pose proof (bracket_snoc (currentOf r s) _ v
                  (attrTexts_nonempty history) Hattr0) as Hbs.
    assert (HT : attrTexts (history ++ [(PAttr, v)])
                 = attrTexts history ++ [attrText v]).
    { unfold attrTexts. now rewrite filter_snoc, map_app. }
    assert (HL : lowCalls (history ++ [(PAttr, v)]) = lowCalls history).
    { unfold lowCalls. rewrite filter_snoc. simpl. apply app_nil_r. }
    assert (HH : highCalls (history ++ [(PAttr, v)]) = []).
    { unfold highCalls in *. rewrite filter_snoc, Hhigh. reflexivity. }
    split; [|rewrite HT; exact Hbs].
    unfold rendering. rewrite HL, HT, HH.
    pose proof (highStr_empty _ He0 (fun p Hp => Hb p Hp)) as Hhs.
    rewrite stringifySel_fragments, fragments_zones in Hout0 |- *.
    change (lowStr (processed PAttr v (currentOf r s)))
      with (lowStr (currentOf r s)).
    change (highStr (processed PAttr v (currentOf r s)))
      with (highStr (currentOf r s)).
    change (attrStr (processed PAttr v (currentOf r s)))
      with (Builder.attrValue (currentOf r s) v).
    unfold rendering in Hout0. rewrite Hhigh, Hattr0, Hhs in Hout0.
    rewrite Hbs, Hhs. rewrite !replaceAll_app in Hout0 |- *.
    apply str_app_cancel_r in Hout0. now rewrite Hout0.
  - pose proof (fragments_processed k v _ Hk Ho0 He0 Hb) as Hfr.
    assert (HT : attrTexts (history ++ [(k, v)]) = attrTexts history).
    { unfold attrTexts. rewrite filter_snoc. cbn [fst].
      destruct (rank k =? 3)%nat eqn:E; [|now rewrite app_nil_r].
      destruct k; try discriminate E; congruence. }
    split.
    2: { rewrite HT, <- Hattr0.
         apply (getProp_processed_other k PAttr). congruence. }
    rewrite stringifySel_fragments, Hfr, replaceAll_app,
      <- stringifySel_fragments, Hout0, <- replaceAll_app. f_equal.
    unfold rendering. rewrite HT. unfold lowCalls, highCalls.
    rewrite !filter_snoc. cbn [fst].
    destruct (rank k <? 3)%nat eqn:Elow.
    + apply Nat.ltb_lt in Elow.
      replace (3 <? rank k)%nat with false by (symmetry; apply Nat.ltb_ge; lia).
      assert (Hta : attrTexts history = []).
      { unfold attrTexts. rewrite filter_none; [reflexivity|].
        intros c Hin. specialize (Hhist c Hin). apply Nat.eqb_neq. lia. }
      assert (Hhigh : List.filter (fun c => (3 <? rank (fst c))%nat) history
                      = []).
      { apply filter_none. intros c Hin. specialize (Hhist c Hin).
        apply Nat.ltb_ge. lia. }
      rewrite Hta, Hhigh, app_nil_r, pieces_app. cbn [pieces bracket].
      now rewrite !str_app_empty_r.
    + apply Nat.ltb_ge in Elow.
      replace (3 <? rank k)%nat with true
        by (symmetry; apply Nat.ltb_lt; destruct k; simpl in *; try lia;
            congruence).
      rewrite app_nil_r, pieces_app. cbn [pieces].
      now rewrite str_app_empty_r, !str_app_assoc.
Qed.

End WholeChains.

(** X14: for every chain of appending calls that returned, started on a
    reference without fragments such as the builder, [stringify] of the
    result is, with the line feeds removed: the pieces of the element, id
    and class calls in call order, then one pair of brackets around the
    texts of the [attr] calls joined by single spaces (none for no such
    call), then the pieces of the pseudo-class and pseudo-element calls.
    The text of an [attr] call is what [split('=')] leaves of its
    descriptor: the first two pieces around ['='], [undefined] for a
    missing second one. *)
Theorem X14_stringify_of_chain (calls : list (part * string))
  (h h' : heap) (r r' : loc) (s : selector) :
  h !! r = Some (Selector s) ->
  fragments s = "" ->
  chain calls r h = (Return r', h') ->
  Builder.stringify r' h'
  = (Return (Js.replaceAll Js.LF "" (rendering calls)), h')
  /\ (hasChar Js.LF (rendering calls) = false ->
      Builder.stringify r' h' = (Return (rendering calls), h')).
Proof.
  intros Hr Hf Hc.
  assert (H0 : rendersAll [] s).
  { split; [|split; [|split]].
    - intros k _. now apply fragments_empty.
    - intros k [].
    - now rewrite stringifySel_fragments, Hf.
    - exact (fragments_empty s PAttr Hf). }
  destruct (chain_invariant rendersAll rendersAll_step calls []
              h h' r r' s Hr H0 Hc) as (s' & Hr' & _ & _ & Hout & _).
  rewrite (stringify_sel _ _ _ Hr'), Hout.
  split; [reflexivity|]. intros Hn. now rewrite (replaceAll_absent _ _ _ Hn).
Qed.

Lemma X14_witness :
  Builder.initialHeap !! Builder.cssSelectorBuilder
  = Some (Selector Builder.template)
  /\ fragments Builder.template = ""
  /\ exists r' h',
       chain [(PElement, "a"); (PClass, "b"); (PAttr, "k=v");
              (PAttr, "x=y=z"); (PAttr, "w"); (PPseudoClass, "focus")]
         Builder.cssSelectorBuilder Builder.initialHeap = (Return r', h')
       /\ Builder.stringify r' h'
          = (Return "a.b[k=v x=y w=undefined]:focus", h').
Proof.
  split; [reflexivity|]. split; [reflexivity|].
  eexists _, _. split; [reflexivity|].
  exact (proj1 (X14_stringify_of_chain
                  [(PElement, "a"); (PClass, "b"); (PAttr, "k=v");
                   (PAttr, "x=y=z"); (PAttr, "w"); (PPseudoClass, "focus")]
                  Builder.initialHeap _ Builder.cssSelectorBuilder _
                  Builder.template eq_refl eq_refl eq_refl)).
Defined.

(** * A descriptor without ['='] *)

Section AfterChain.





End AfterChain.




Section Refused.

Lemma pushPart_twice (po : list part) (k : part) :
  pushPart (pushPart po k) k = pushPart po k.
Proof.
  unfold pushPart at 1. rewrite pushPart_last.
  rewrite bool_decide_eq_false_2; [reflexivity | tauto].
Qed.

End Refused.

(** X6: an order error is for good.  When an appending call threw the
    order error on a selector, every later call of the same method on that
    selector, with whatever name, throws too (the order error again, or the
    error of a repeated part): the part and the name the failed call wrote
    stay on the selector. *)
Theorem X6_order_error_is_permanent (h h' : heap) (r : loc) (s : selector)
  k v v2 :
  h !! r = Some (Selector s) ->
  append k v r h = (Throw OutOfOrderPart, h') ->
  exists e h'',
    append k v2 r h' = (Throw e, h'')
    /\ (e = OutOfOrderPart \/ e = DuplicateSingularPart).
Proof.
  intros Hr Ha. pose proof (lookup_lt_Some _ _ _ Hr) as Hlt.
  destruct (append_throws _ _ _ _ _ _ _ Hr Ha)
    as [(E & _ & _) | (_ & Ho & Hout & Hc & ->)]; [discriminate E|].
  rewrite (append_run _ _ (processed k v s) k v2
             (list_lookup_insert_eq _ _ _ Hlt)).
  unfold appendResult.
  destruct (occurs k (processed k v s)); [eexists _, _; now split; auto|].
  rewrite (output_processed_mono _ _ _ Ho Hout).
  rewrite !partsOrder_processed, pushPart_twice, Hc.
  eexists _, _. split; [reflexivity | now left].
Qed.

Lemma X6_witness :
  classHeap !! 1%nat = Some (Selector dotX)
  /\ append PElement "div" 1%nat classHeap
     = (Throw OutOfOrderPart,
        [Selector Builder.template;
         Selector (mkSelector (Some 0%nat) "div" "" ".x" "" "" ""
                     [PClass; PElement])])
  /\ exists e h'',
       append PElement "p" 1%nat
         [Selector Builder.template;
          Selector (mkSelector (Some 0%nat) "div" "" ".x" "" "" ""
                      [PClass; PElement])] = (Throw e, h'')
       /\ (e = OutOfOrderPart \/ e = DuplicateSingularPart).
Proof.
  split; [reflexivity|]. split; [reflexivity|].
  exact (X6_order_error_is_permanent classHeap _ 1%nat dotX PElement "div" "p"
           eq_refl eq_refl).
Defined.

(** * The two copies of the builder *)

Section CopiesAgree.

Lemma chooseObj_currentObjOf (r : loc) (h : heap) :
  InlineMethods.chooseObj r h = Builder.currentObjOf r h.
Proof.
  unfold InlineMethods.chooseObj, Builder.currentObjOf, bind.
  destruct (Builder.stringify r h) as [[str|e] h1]; [|reflexivity].
  now destruct (Js.truthy str).
Qed.

(** Writing the property, recording the name and checking the order, as
    each method of the one copy does, is [processElement] of the other. *)
Lemma inline_write (h : heap) (cur : loc) k (v : string) :
  (let* c := getSel cur in
   run putSel cur (Builder.setProp k (Builder.currentValue c v k) c) then
   run Builder.addPartToOrder cur k then
   run Builder.checkElemOrder cur then
   ret cur) h
  = (run Builder.processElement cur v k then ret cur) h.
Proof.
  unfold Builder.processElement. unfold bind. unfold getSel.
  destruct (h !! cur) as [[c|str]|]; [|reflexivity|reflexivity].
  unfold putSel.
  destruct (Builder.addPartToOrder cur k _) as [[[]|e] h1]; [|reflexivity].
  now destruct (Builder.checkElemOrder cur h1) as [[[]|e] h2].
Qed.

Lemma inline_body (r : loc) (h : heap) k (v : string) :
  (let* currentObj := InlineMethods.chooseObj r in
   let* c := getSel currentObj in
   run putSel currentObj
         (Builder.setProp k (Builder.currentValue c v k) c) then
   run Builder.addPartToOrder currentObj k then
   run Builder.checkElemOrder currentObj then
   ret currentObj) h
  = (let* currentObj := Builder.currentObjOf r in
     run Builder.processElement currentObj v k then
     ret currentObj) h.
Proof.
  unfold bind at 1 6. rewrite chooseObj_currentObjOf.
  destruct (Builder.currentObjOf r h) as [[cur|e] h1]; [|reflexivity].
  apply inline_write.
Qed.

Lemma bind_getSel_ext {A} (K1 K2 : selector -> M A) (r : loc) (h : heap) :
  (forall s h', K1 s h' = K2 s h') ->
  bind (getSel r) K1 h = bind (getSel r) K2 h.
Proof.
  intros HK. unfold bind. destruct (getSel r h) as [[s|e] h1];
    [apply HK | reflexivity].
Qed.

Lemma inline_methods_agree k (v : string) (r : loc) (h : heap) :
  k <> PAttr -> inlineAppend k v r h = append k v r h.
Proof.
  intros Hk. pose proof (inline_body r) as Hb.
  destruct k; try congruence;
    unfold inlineAppend, append, InlineMethods.element, InlineMethods.id,
      InlineMethods.class, InlineMethods.pseudoClass,
      InlineMethods.pseudoElement, Builder.element, Builder.id, Builder.class,
      Builder.pseudoClass, Builder.pseudoElement;
    apply bind_getSel_ext; intros s h';
    try match goal with
        | |- context [if Js.truthy ?f then throw _ else _] =>
            destruct (Js.truthy f); [reflexivity|]
        end.
  - exact (Hb h' PElement v).
  - exact (Hb h' PId v).
  - exact (Hb h' PClass v).
  - exact (Hb h' PPseudoClass v).
  - exact (Hb h' PPseudoElement v).
Qed.

Lemma quiet_attr_empty (s : selector) :
  attrStr s = "" \/ visible (attrStr s) = true ->
  Js.truthy (Builder.stringifySel s) = false -> attrStr s = "".
Proof.
  intros [E | Hv] Hq; [exact E|].
  rewrite truthy_stringifySel, Hv in Hq.
  rewrite !orb_true_r in Hq. discriminate.
Qed.

Lemma attr_processed_shaped k v (s : selector) :
  attrStr s = "" \/ visible (attrStr s) = true ->
  attrStr (processed k v s) = ""
  \/ visible (attrStr (processed k v s)) = true.
Proof.
  intros Hs. destruct (decide (k = PAttr)) as [-> | Hk].
  - right. rewrite attrStr_processed_attr. apply visible_attrValue.
  - change (attrStr (processed k v s))
      with (Builder.getProp PAttr (processed k v s)).
    rewrite getProp_processed_other by congruence. exact Hs.
Qed.

Lemma append_keeps_shape k v (r : loc) (h : heap) :
  attrsShaped h -> attrsShaped (snd (append k v r h)).
Proof.
  intros Hh. destruct (h !! r) as [[s|str]|] eqn:Hr.
  - rewrite (append_run _ _ _ _ _ Hr). unfold appendResult.
    destruct (occurs k s); [exact Hh|].
    destruct (Js.truthy _); cbn [snd]; intros l s' Hl.
    + destruct (decide (l = r)) as [-> | Hne].
      * rewrite list_lookup_insert_eq in Hl by (eapply lookup_lt_Some; eauto).
        injection Hl as <-. apply attr_processed_shaped. now apply (Hh r).
      * rewrite list_lookup_insert_ne in Hl by congruence. now apply (Hh l).
    + apply lookup_app_Some in Hl as [Hl | [_ Hl]]; [now apply (Hh l)|].
      apply list_lookup_singleton_Some in Hl as [_ E].
      injection E as <-. apply attr_processed_shaped. now left.
  - rewrite append_not_selector by congruence. exact Hh.
  - rewrite append_not_selector by congruence. exact Hh.
Qed.

Lemma inline_append_agrees k v (r : loc) (h : heap) :
  attrsShaped h ->
  (k = PAttr -> keyOf v <> "__proto__") ->
  inlineAppend k v r h = append k v r h.
Proof.
  intros Hh Hkey. destruct (decide (k = PAttr)) as [-> | Hk];
    [|now apply inline_methods_agree].
  destruct (h !! r) as [[s|str]|] eqn:Hr.
  - apply (inline_attr_agrees h r s v Hr);
      [apply quiet_attr_empty; now apply (Hh r) | now apply Hkey].
  - cbn [inlineAppend append]. unfold Inline.attr, Builder.attr, bind, getSel.
    now rewrite Hr.
  - cbn [inlineAppend append]. unfold Inline.attr, Builder.attr, bind, getSel.
    now rewrite Hr.
Qed.

Lemma inline_chain_agrees (calls : list (part * string)) :
  forall (r : loc) (h : heap),
    attrsShaped h ->
    (forall d, In (PAttr, d) calls -> keyOf d <> "__proto__") ->
    inlineChain calls r h = chain calls r h.
Proof.
  induction calls as [|[k v] calls IH]; intros r h Hh Hkey; [reflexivity|].
  cbn [inlineChain chain]. unfold bind.
  rewrite (inline_append_agrees k v r h Hh)
    by (intros ->; apply Hkey; now left).
  pose proof (append_keeps_shape k v r h Hh) as Hh1.
  destruct (append k v r h) as [[r1|e] h1]; [|reflexivity].
  apply IH; [exact Hh1 | intros d Hd; apply Hkey; now right].
Qed.

Lemma attrsShaped_initial : attrsShaped Builder.initialHeap.
Proof.
  intros l s Hl. destruct l as [|l]; [|discriminate Hl].
  injection Hl as <-. now left.
Qed.

End CopiesAgree.

(** X7: the methods [element], [id], [class], [pseudoClass] and
    [pseudoElement] of the copy of the builder that writes the property in
    each method do, on every heap and every receiver, exactly what those of
    the copy with [processElement] do: same result or same error, same
    heap. *)
Theorem X7_inline_methods_agree k (v : string) (r : loc) (h : heap) :
  k <> PAttr -> inlineAppend k v r h = append k v r h.
Proof. apply inline_methods_agree. Qed.

Lemma X7_witness :
  PClass <> PAttr
  /\ inlineAppend PClass "y" 1%nat classHeap = append PClass "y" 1%nat classHeap.
Proof.
  assert (H : PClass <> PAttr) by discriminate.
  split; [exact H|].
  exact (X7_inline_methods_agree PClass "y" 1%nat classHeap H).
Defined.

(** X8: started on the builder, a chain of appending calls of the one copy
    returns the same reference or throws the same error, and leaves the
    same heap, as the same chain of the other copy, provided no [attr] call
    has a descriptor whose key (the text before its first ['=']) is
    ['__proto__']; with that key the copy without [processElement] makes no
    entry and renders empty brackets where the other renders
    ['[__proto__=undefined]']. *)
Theorem X8_inline_chains_agree (calls : list (part * string)) :
  (forall d, In (PAttr, d) calls -> keyOf d <> "__proto__") ->
  inlineChain calls Builder.cssSelectorBuilder Builder.initialHeap
  = chain calls Builder.cssSelectorBuilder Builder.initialHeap
  /\ fst ((let* b := Inline.attr Builder.cssSelectorBuilder "__proto__" in
           Builder.stringify b) Builder.initialHeap) = Return "[]"
  /\ fst ((let* b := Builder.attr Builder.cssSelectorBuilder "__proto__" in
           Builder.stringify b) Builder.initialHeap)
     = Return "[__proto__=undefined]".
Proof.
  intros Hkey. split; [|split; reflexivity].
  apply inline_chain_agrees; [apply attrsShaped_initial | exact Hkey].
Qed.

Lemma X8_witness :
  (forall d, In (PAttr, d) [(PElement, "a"); (PAttr, "x=1"); (PAttr, "y")] ->
     keyOf d <> "__proto__")
  /\ inlineChain [(PElement, "a"); (PAttr, "x=1"); (PAttr, "y")]
       Builder.cssSelectorBuilder Builder.initialHeap
     = chain [(PElement, "a"); (PAttr, "x=1"); (PAttr, "y")]
         Builder.cssSelectorBuilder Builder.initialHeap.
Proof.
  assert (H : forall d,
             In (PAttr, d) [(PElement, "a"); (PAttr, "x=1"); (PAttr, "y")] ->
             keyOf d <> "__proto__").
  { intros d [E | [E | [E | []]]]; try discriminate E;
      injection E as <-; vm_compute; discriminate. }
  split; [exact H|].
  exact (proj1 (X8_inline_chains_agree
                  [(PElement, "a"); (PAttr, "x=1"); (PAttr, "y")] H)).
Defined.

(** * The date tasks *)

Section Dates.

Lemma rem_zero_divide (a b : Z) : b <> 0 -> ((Z.rem a b =? 0) = true <-> (b | a)).
Proof. intros Hb. rewrite Z.eqb_eq. now apply Z.rem_divide. Qed.

Lemma isLeapYear_rule (y : Z) :
  DateTasks.isLeapYear y = true
  <-> ((4 | y) /\ ~ (100 | y)) \/ (400 | y).
Proof.
  unfold DateTasks.isLeapYear.
  pose proof (rem_zero_divide y 4 ltac:(lia)) as H4.
  pose proof (rem_zero_divide y 100 ltac:(lia)) as H100.
  pose proof (rem_zero_divide y 400 ltac:(lia)) as H400.
  assert (D1 : (400 | y) -> (100 | y))
    by (apply Z.divide_trans; exists 4; lia).
  assert (D2 : (100 | y) -> (4 | y))
    by (apply Z.divide_trans; exists 25; lia).
  destruct (Z.rem y 4 =? 0);
    [assert (F4 : (4 | y)) by (now apply H4)
    |assert (F4 : ~ (4 | y)) by (intros X; apply H4 in X; discriminate)];
    (destruct (Z.rem y 100 =? 0);
     [assert (F100 : (100 | y)) by (now apply H100)
     |assert (F100 : ~ (100 | y))
        by (intros X; apply H100 in X; discriminate)]);
    (destruct (Z.rem y 400 =? 0);
     [assert (F400 : (400 | y)) by (now apply H400)
     |assert (F400 : ~ (400 | y))
        by (intros X; apply H400 in X; discriminate)]);
    clear H4 H100 H400; cbn [negb]; split; intros H;
    try reflexivity; try discriminate H; try tauto.
Qed.

Lemma isLeapYear_period (y : Z) :
  DateTasks.isLeapYear (y + 400) = DateTasks.isLeapYear y.
Proof.
  destruct (DateTasks.isLeapYear y) eqn:E.
  - apply isLeapYear_rule. apply isLeapYear_rule in E.
    destruct E as [[[a Ha] Hn] | [a Ha]].
    + left. split; [exists (a + 100); lia|].
      intros [b Hb]. apply Hn. exists (b - 4). lia.
    + right. exists (a + 1). lia.
  - destruct (DateTasks.isLeapYear (y + 400)) eqn:E'; [|reflexivity].
    apply isLeapYear_rule in E'.
    assert (DateTasks.isLeapYear y = true); [|congruence].
    apply isLeapYear_rule.
    destruct E' as [[[a Ha] Hn] | [a Ha]].
    + left. split; [exists (a - 100); lia|].
      intros [b Hb]. apply Hn. exists (b + 4). lia.
    + right. exists (a - 1). lia.
Qed.

Lemma leapYearsFrom_head (y : Z) (n : nat) :
  length (leapYearsFrom y (S n))
  = ((if DateTasks.isLeapYear y then 1 else 0)
     + length (leapYearsFrom (y + 1) n))%nat.
Proof.
  unfold leapYearsFrom. cbn [seq map]. rewrite filter_cons.
  rewrite <- seq_shift, map_map.
  replace (y + Z.of_nat 0) with y by lia.
  assert (E : map (fun i => y + Z.of_nat (S i)) (seq 0 n)
              = map (fun i => y + 1 + Z.of_nat i) (seq 0 n)).
  { apply map_ext. intros i. lia. }
  rewrite E. destruct (DateTasks.isLeapYear y); case_decide;
    try congruence; simpl; lia.
Qed.

Lemma leapYearsFrom_last (y : Z) (n : nat) :
  length (leapYearsFrom y (S n))
  = (length (leapYearsFrom y n)
     + (if DateTasks.isLeapYear (y + Z.of_nat n) then 1 else 0))%nat.
Proof.
  unfold leapYearsFrom. rewrite seq_S, map_app, filter_app, length_app.
  cbn [map Nat.add]. rewrite filter_cons, filter_nil.
  destruct (DateTasks.isLeapYear (y + Z.of_nat n)); case_decide;
    try congruence; simpl; lia.
Qed.

Lemma leapYears_shift (y : Z) :
  length (leapYearsFrom (y + 1) 400) = length (leapYearsFrom y 400).
Proof.
  pose proof (leapYearsFrom_head y 400) as H1.
  pose proof (leapYearsFrom_last y 400) as H2.
  replace (y + Z.of_nat 400) with (y + 400) in H2 by lia.
  rewrite isLeapYear_period in H2. lia.
Qed.

(** Checking a decidable property of the integers below a bound. *)
Lemma range_check (f : Z -> bool) (N : nat) :
  forallb f (map Z.of_nat (seq 0 N)) = true ->
  forall n, 0 <= n < Z.of_nat N -> f n = true.
Proof.
  intros Hall n Hn. rewrite forallb_forall in Hall. apply Hall.
  apply in_map_iff. exists (Z.to_nat n). split; [lia|].
  apply in_seq. lia.
Qed.

Lemma convert_HH (v : Z) :
  0 <= v < 100 ->
  DateTasks.convertEntry ("HH", v) = ("HH", twoDigits v).
Proof.
  intros Hv.
  pose (f := fun n => bool_decide (DateTasks.convertEntry ("HH", n)
                                     = ("HH", twoDigits n))).
  assert (Hall : forallb f (map Z.of_nat (seq 0 100)) = true)
    by (vm_compute; reflexivity).
  exact (bool_decide_eq_true_1 _ (range_check f 100 Hall v Hv)).
Qed.

Lemma convert_mm (v : Z) :
  0 <= v < 100 ->
  DateTasks.convertEntry ("mm", v) = ("mm", twoDigits v).
Proof.
  intros Hv.
  pose (f := fun n => bool_decide (DateTasks.convertEntry ("mm", n)
                                     = ("mm", twoDigits n))).
  assert (Hall : forallb f (map Z.of_nat (seq 0 100)) = true)
    by (vm_compute; reflexivity).
  exact (bool_decide_eq_true_1 _ (range_check f 100 Hall v Hv)).
Qed.

Lemma convert_ss (v : Z) :
  0 <= v < 100 ->
  DateTasks.convertEntry ("ss", v) = ("ss", twoDigits v).
Proof.
  intros Hv.
  pose (f := fun n => bool_decide (DateTasks.convertEntry ("ss", n)
                                     = ("ss", twoDigits n))).
  assert (Hall : forallb f (map Z.of_nat (seq 0 100)) = true)
    by (vm_compute; reflexivity).
  exact (bool_decide_eq_true_1 _ (range_check f 100 Hall v Hv)).
Qed.

Lemma convert_sss (v : Z) :
  0 <= v < 1000 ->
  DateTasks.convertEntry ("sss", v)
  = ("sss", if (10 <=? v) && (v <? 100) then "00" +:+ twoDigits v
            else threeDigits v).
Proof.
  intros Hv.
  pose (f := fun n => bool_decide
                          (DateTasks.convertEntry ("sss", n)
                           = ("sss", if (10 <=? n) && (n <? 100)
                                     then "00" +:+ twoDigits n
                                     else threeDigits n))).
  assert (Hall : forallb f (map Z.of_nat (seq 0 1000)) = true)
    by (vm_compute; reflexivity).
  exact (bool_decide_eq_true_1 _ (range_check f 1000 Hall v Hv)).
Qed.

End Dates.

(** X9: [isLeapYear] follows the Gregorian rule on the full year of the
    date, negative years included: the year is leap exactly when it is
    divisible by 4 and not by 100, or divisible by 400; the answer repeats
    every 400 years. *)
Theorem X9_isLeapYear_gregorian (YEAR : Z) :
  (DateTasks.isLeapYear YEAR = true
   <-> ((4 | YEAR) /\ ~ (100 | YEAR)) \/ (400 | YEAR))
  /\ DateTasks.isLeapYear (YEAR + 400) = DateTasks.isLeapYear YEAR.
Proof. split; [apply isLeapYear_rule | apply isLeapYear_period]. Qed.

(** X10: of any 400 consecutive years, [isLeapYear] answers [true] for
    exactly 97. *)
Theorem X10_leap_years_per_cycle (y : Z) :
  length (leapYearsFrom y 400) = 97%nat.
Proof.
  revert y. apply Z.peano_ind.
  - vm_compute. reflexivity.
  - intros y IH. unfold Z.succ. now rewrite leapYears_shift.
  - intros y IH. rewrite <- (leapYears_shift (Z.pred y)).
    now replace (Z.pred y + 1) with y by lia.
Qed.

(** X11: the fields of [getTimeObj], for two time values whose difference
    is below [2^53] in magnitude, where the subtraction, the products and
    the floored quotients of the code are exact.  [mm] and [ss] lie in
    0..59.  When the end is not before the start, [HH] is not negative, [sss] lies
    in 0..999 and the four fields add up to the difference in
    milliseconds.  When the end is before the start, [HH] is negative and
    [sss], a remainder with the sign of the difference, lies in -999..0:
    the fields then add up to the difference only if it is a multiple of
    1000, and to 1000 less otherwise. *)
Theorem X11_getTimeObj_fields (startDate endDate : Z) :
  Z.abs (endDate - startDate) < 2 ^ 53 ->
  let d := endDate - startDate in
  let t := DateTasks.getTimeObj d in
  let total := DateTasks.HH t * 3600000 + DateTasks.mm t * 60000
               + DateTasks.ss t * 1000 + DateTasks.sss t in
  0 <= DateTasks.mm t < 60
  /\ 0 <= DateTasks.ss t < 60
  /\ (0 <= d ->
      0 <= DateTasks.HH t /\ 0 <= DateTasks.sss t < 1000 /\ total = d)
  /\ (d < 0 ->
      DateTasks.HH t < 0 /\ -1000 < DateTasks.sss t <= 0
      /\ total = if DateTasks.sss t =? 0 then d else d - 1000).
Proof.
  intros _ d t total. subst total t. unfold DateTasks.getTimeObj.
  cbn [DateTasks.HH DateTasks.mm DateTasks.ss DateTasks.sss].
  generalize d. clear. intros d.
  change (60 * 60 * 1000) with 3600000. change (60 * 1000) with 60000.
  destruct (Z.rem d 1000 =? 0) eqn:E;
    [apply Z.eqb_eq in E | apply Z.eqb_neq in E];
    Z.to_euclidean_division_equations; lia.
Qed.

Lemma X11_witness :
  let t := DateTasks.getTimeObj (0 - 1) in
  Z.abs (0 - 1) < 2 ^ 53
  /\ 0 - 1 < 0
  /\ DateTasks.HH t = -1 /\ DateTasks.mm t = 59 /\ DateTasks.ss t = 59
  /\ DateTasks.sss t = -1
  /\ DateTasks.HH t * 3600000 + DateTasks.mm t * 60000
     + DateTasks.ss t * 1000 + DateTasks.sss t = 0 - 1 - 1000.
Proof.
  intros t. repeat (split; [reflexivity|]).
  exact (proj2 (proj2 (proj2 (proj2 (proj2
           (X11_getTimeObj_fields 0 (-1) eq_refl))) eq_refl))).
Defined.

(** X12: for a span from 0 to less than 100 hours, [timeSpanToString]
    writes the hours, the minutes and the seconds with two digits each,
    separated by colons, then a dot and the milliseconds: with three digits
    when they are below 10 or at least 100, so that the string has the
    twelve characters of [HH:mm:ss.sss], but as [00] followed by their two
    digits when they lie in 10..99, which gives thirteen characters. *)
Theorem X12_timeSpanToString_format (startDate endDate : Z) :
  0 <= endDate - startDate < 360000000 ->
  let t := DateTasks.getTimeObj (endDate - startDate) in
  let ms := DateTasks.sss t in
  DateTasks.timeSpanToString startDate endDate
  = twoDigits (DateTasks.HH t) +:+ ":" +:+ twoDigits (DateTasks.mm t) +:+ ":"
    +:+ twoDigits (DateTasks.ss t) +:+ "."
    +:+ (if (10 <=? ms) && (ms <? 100) then "00" +:+ twoDigits ms
         else threeDigits ms)
  /\ String.length (DateTasks.timeSpanToString startDate endDate)
     = if (10 <=? ms) && (ms <? 100) then 13%nat else 12%nat.
Proof.
  intros Hd t ms.
  assert (HH : 0 <= DateTasks.HH t < 100
               /\ 0 <= DateTasks.mm t < 100
               /\ 0 <= DateTasks.ss t < 100
               /\ 0 <= DateTasks.sss t < 1000).
  { subst t. unfold DateTasks.getTimeObj.
    cbn [DateTasks.HH DateTasks.mm DateTasks.ss DateTasks.sss].
    change (60 * 60 * 1000) with 3600000. change (60 * 1000) with 60000.
    revert Hd. generalize (endDate - startDate). intros d Hd.
    Z.to_euclidean_division_equations; lia. }
  destruct HH as (H1 & H2 & H3 & H4).
  assert (E : DateTasks.timeSpanToString startDate endDate
              = twoDigits (DateTasks.HH t) +:+ ":"
                +:+ twoDigits (DateTasks.mm t) +:+ ":"
                +:+ twoDigits (DateTasks.ss t) +:+ "."
                +:+ (if (10 <=? ms) && (ms <? 100) then "00" +:+ twoDigits ms
                     else threeDigits ms)).
  { unfold DateTasks.timeSpanToString, DateTasks.convertForOutput,
      DateTasks.entries. fold t. cbn [map].
    rewrite (convert_HH _ H1), (convert_mm _ H2), (convert_ss _ H3),
      (convert_sss _ H4).
    reflexivity. }
  split; [exact E|]. rewrite E.
  destruct ((10 <=? ms) && (ms <? 100)); reflexivity.
Qed.

Lemma X12_witness :
  0 <= 45 - 0 < 360000000
  /\ DateTasks.timeSpanToString 0 45 = "00:00:00.0045"
  /\ String.length (DateTasks.timeSpanToString 0 45) = 13%nat.
Proof.
  assert (H : 0 <= 45 - 0 < 360000000) by lia.
  split; [exact H|].
  exact (X12_timeSpanToString_format 0 45 H).
Defined.

Section Clock.

Lemma angleChecks_all (hours minutes : Z) :
  0 <= hours <= 23 -> 0 <= minutes <= 59 ->
  angleChecks hours minutes = true.
Proof.
  intros Hh Hm.
  pose (f := fun n => angleChecks (n / 60) (n mod 60)).
  assert (Hall : forallb f (map Z.of_nat (seq 0 1440)) = true)
    by (vm_compute; reflexivity).
  pose proof (range_check f 1440 Hall (hours * 60 + minutes) ltac:(lia)) as H.
  unfold f in H.
  replace ((hours * 60 + minutes) / 60) with hours in H
    by (Z.to_euclidean_division_equations; lia).
  replace ((hours * 60 + minutes) mod 60) with minutes in H
    by (Z.to_euclidean_division_equations; lia).
  exact H.
Qed.

Lemma eqb_true_iff_iff (a b : bool) : Bool.eqb a b = true -> (a = true <-> b = true).
Proof. destruct a, b; simpl; intros H; split; congruence. Qed.

End Clock.

(** X13: the angle [resultAngle] that [angleBetweenClockHands] converts to
    radians, for hours 0..23 and minutes 0..59: it lies between 0 and 180
    degrees, is the same twelve hours later, is 0 only at 0:00 and 12:00
    and is 180 only at 6:00 and 18:00. *)
Theorem X13_resultAngle_bounds (hours minutes : Z) :
  0 <= hours <= 23 -> 0 <= minutes <= 59 ->
  (0 <= DateTasks.resultAngle hours minutes <= 180)%Q
  /\ (hours <= 11 ->
      (DateTasks.resultAngle (hours + 12) minutes
       == DateTasks.resultAngle hours minutes)%Q)
  /\ ((DateTasks.resultAngle hours minutes == 0)%Q
      <-> (hours = 0 \/ hours = 12) /\ minutes = 0)
  /\ ((DateTasks.resultAngle hours minutes == 180)%Q
      <-> (hours = 6 \/ hours = 18) /\ minutes = 0).
Proof.
  intros Hh Hm. pose proof (angleChecks_all hours minutes Hh Hm) as H.
  unfold angleChecks in H.
  apply andb_true_iff in H as [H H5]. apply andb_true_iff in H as [H H4].
  apply andb_true_iff in H as [H H3]. apply andb_true_iff in H as [H1 H2].
  apply Qle_bool_iff in H1. apply Qle_bool_iff in H2.
  apply eqb_true_iff_iff in H4. apply eqb_true_iff_iff in H5.
  rewrite Qeq_bool_iff in H4, H5.
  split; [now split|]. split; [|split].
  - intros Hle. apply orb_true_iff in H3 as [H3 | H3].
    + apply Z.ltb_lt in H3. lia.
    + now apply Qeq_bool_iff.
  - rewrite H4, andb_true_iff, orb_true_iff, !Z.eqb_eq. reflexivity.
  - rewrite H5, andb_true_iff, orb_true_iff, !Z.eqb_eq. reflexivity.
Qed.

Lemma X13_witness :
  0 <= 3 <= 23 /\ 0 <= 0 <= 59
  /\ (0 <= DateTasks.resultAngle 3 0 <= 180)%Q.
Proof.
  assert (H1 : 0 <= 3 <= 23) by lia.
  assert (H2 : 0 <= 0 <= 59) by lia.
  split; [exact H1|]. split; [exact H2|].
  exact (proj1 (X13_resultAngle_bounds 3 0 H1 H2)).
Defined.
